(** * Active-user reporting over per-day bitsets: [lib/reporter.js], [lib/util.js]

    A shallow embedding of the reporter ([daily], [weekly], [monthly],
    [getUsers], [activeUsers], [cardinality]) and of its helpers ([keyFor],
    [to64Bits], [monthKeys], [weekKeys]), followed by the properties the
    specification states about them.

    Conventions:
    - a JavaScript [BigInt] is a [Z]; [|] on BigInts is [Z.lor];
    - a Node [Buffer] is a [list byte];
    - a UTC [moment] is its time value, milliseconds since the epoch, in [Z];
      moments are mutable objects, so every function that mutates one
      returns the new state of the object and the caller threads it;
    - the store client is a record of its three commands; a command answers
      with an error or a reply, as its node-style callback would receive;
    - a call ends in an [Outcome]: the callback invoked with an error, the
      callback invoked with a value, or an exception that leaves the function
      (for the [async] function [getUsers], the rejection of the promise it
      returns). *)

From Stdlib Require Import ZArith List Strings.String Strings.Ascii Strings.Byte.
From Stdlib Require Import Lia Permutation Bool FinFun.
From Stdlib Require Import Numbers.DecimalString Numbers.DecimalN.
From stdpp Require Import gmap strings.
Import ListNotations.

Open Scope string_scope.
Open Scope list_scope.
Open Scope Z_scope.

(* ===================================================================== *)
(** * JavaScript values and strings *)
(* ===================================================================== *)

(** The values an optional string argument ([action], [type]) can take. *)
Inductive JsValue : Type :=
| JsUndefined
| JsNull
| JsString (s : string).

(** [v || dflt] for a string default: [undefined], [null] and the empty
    string are falsy. *)
Definition or_default (v : JsValue) (dflt : string) : string :=
  match v with
  | JsString (String c s) => String c s
  | _ => dflt
  end.

(** [v === lit] for a string literal. *)
Definition strict_eq (v : JsValue) (lit : string) : bool :=
  match v with
  | JsString s => String.eqb s lit
  | _ => false
  end.

Inductive JsError : Type :=
| TypeError (msg : string)
| RangeError (msg : string)
| ClientError (e : string).

(** [Array.prototype.join]. *)
Fixpoint Array_join (sep : string) (l : list string) : string :=
  match l with
  | [] => ""
  | [x] => x
  | x :: rest => x +:+ sep +:+ Array_join sep rest
  end.

(** [String.prototype.split] on a one-character separator. [cur] is the
    piece being read. *)
Fixpoint split_from (sep : ascii) (cur : string) (s : string) : list string :=
  match s with
  | EmptyString => [cur]
  | String c s' =>
      if Ascii.eqb c sep then cur :: split_from sep "" s'
      else split_from sep (cur +:+ String c "") s'
  end.

Definition split (sep : ascii) (s : string) : list string := split_from sep "" s.

(** [`${parts[i]}`]: an index past the end reads [undefined]. *)
Definition template_nth (parts : list string) (i : nat) : string :=
  nth i parts "undefined".

(** [String.prototype.charAt]. *)
Definition charAt (s : string) (i : nat) : string :=
  match String.get i s with
  | Some c => String c ""
  | None => ""
  end.

(** Decimal form of a non-negative integer, ['' + n]. *)
Definition dec (n : Z) : string := NilZero.string_of_uint (N.to_uint (Z.to_N n)).

Fixpoint zeros (n : nat) : string :=
  match n with
  | O => ""
  | S k => String "0" (zeros k)
  end.

(* ===================================================================== *)
(** * Node buffers and BigInt *)
(* ===================================================================== *)

Abbreviation Buffer := (list byte).

Definition byte_val (b : byte) : Z := Z.of_N (Byte.to_N b).

(** [Buffer.alloc(n)]: [n] zero bytes. *)
Definition Buffer_alloc (n : nat) : Buffer := repeat x00 n.

(** [Buffer.concat(list, totalLength)]: the buffers of [list] one after the
    other, cut or zero-filled at the end to [totalLength] bytes. *)
Definition Buffer_concat (l : list Buffer) (totalLength : nat) : Buffer :=
  let all := List.concat l in
  firstn totalLength all ++ repeat x00 (totalLength - length all).

(** [util.to64Bits]. *)
Definition to64Bits (buffer : Buffer) : Buffer :=
  if (length buffer <? 8)%nat then
    let bufZeros := Buffer_alloc (8 - length buffer) in
    Buffer_concat [bufZeros; buffer] 8
  else buffer.

(** The bytes of a buffer as one big-endian unsigned integer. *)
Definition be_unsigned (bs : list byte) : Z :=
  fold_left (fun acc b => acc * 256 + byte_val b) bs 0.

(** [x << 24] on a JavaScript number: the result is a signed 32-bit
    integer. *)
Definition int32 (x : Z) : Z := (x + 2 ^ 31) mod 2 ^ 32 - 2 ^ 31.

(** [buf.readBigInt64BE()] at offset 0, as Node computes it: the high word
    as a signed 32-bit value, shifted, plus the unsigned low word. On a
    buffer of fewer than 8 bytes [this[offset + 7]] is [undefined] and
    [boundsError (offset, this.length - 8)], its length argument negative,
    throws the RangeError of code ERR_BUFFER_OUT_OF_BOUNDS. *)
Definition readBigInt64BE (buffer : Buffer) : JsError + Z :=
  match buffer with
  | first :: b1 :: b2 :: b3 :: b4 :: b5 :: b6 :: last :: _ =>
      let val := int32 (Z.shiftl (byte_val first) 24)
                 + byte_val b1 * 2 ^ 16 + byte_val b2 * 2 ^ 8 + byte_val b3 in
      inr (Z.shiftl val 32
           + (byte_val b4 * 2 ^ 24 + byte_val b5 * 2 ^ 16
              + byte_val b6 * 2 ^ 8 + byte_val last))
  | _ => inl (RangeError "ERR_BUFFER_OUT_OF_BOUNDS")
  end.

(** [BigInt.prototype.toString(2)]: binary digits of the magnitude, most
    significant first, after a minus sign for a negative value. *)
Fixpoint pos_toString2 (p : positive) : string :=
  match p with
  | xH => "1"
  | xO q => pos_toString2 q +:+ "0"
  | xI q => pos_toString2 q +:+ "1"
  end.

Definition BigInt_toString2 (z : Z) : string :=
  match z with
  | Z0 => "0"
  | Zpos p => pos_toString2 p
  | Zneg p => "-" +:+ pos_toString2 p
  end.

(** [util.toBinaryString]. *)
Definition toBinaryString (buffer : Buffer) : JsError + string :=
  let buffer64 := to64Bits buffer in
  match readBigInt64BE buffer64 with
  | inl e => inl e
  | inr binaryBigint => inr (BigInt_toString2 binaryBigint)
  end.

(** The [for] loop of [cardinality]: [steps] iterations are left, [i] is the
    index read next. *)
Fixpoint cardinality_loop (binaryString : string) (i steps : nat) (cardinality : nat)
  : nat :=
  match steps with
  | O => cardinality
  | S k =>
      cardinality_loop binaryString (S i) k
        (if String.eqb (charAt binaryString i) "1" then S cardinality
         else cardinality)
  end.

(** [cardinality] of reporter.js. *)
Definition cardinality (binaryBigint : Z) : nat :=
  let binaryString := BigInt_toString2 binaryBigint in
  let len := String.length binaryString in
  cardinality_loop binaryString 0 len 0.

(* ===================================================================== *)
(** * The calendar: ECMAScript time values and moment.js in UTC mode *)
(* ===================================================================== *)

Definition msPerDay : Z := 86400000.

(** A valid moment in UTC mode, as its time value. *)
Definition Moment : Type := Z.

Definition Day (t : Z) : Z := t / msPerDay.
Definition TimeWithinDay (t : Z) : Z := t mod msPerDay.

Definition isLeapYear (y : Z) : bool :=
  (y mod 4 =? 0) && (negb (y mod 100 =? 0) || (y mod 400 =? 0)).

Definition DaysInYear (y : Z) : Z := if isLeapYear y then 366 else 365.

(** Day number of the first day of year [y]. *)
Definition DayFromYear (y : Z) : Z :=
  365 * (y - 1970) + (y - 1969) / 4 - (y - 1901) / 100 + (y - 1601) / 400.

(** The largest [y] with [DayFromYear y <= d]: an estimate from the mean
    year length, then one step up or down. *)
Definition YearFromDay (d : Z) : Z :=
  let y0 := 1970 + (d * 400) / 146097 in
  if DayFromYear (y0 + 1) <=? d then y0 + 1
  else if DayFromYear y0 <=? d then y0
  else y0 - 1.

Definition DayWithinYear (d : Z) : Z := d - DayFromYear (YearFromDay d).

(** Number of days of the year before month [m] (0 = January). *)
Definition monthStart (leap : bool) (m : Z) : Z :=
  let l := if leap then 1 else 0 in
  match m with
  | 0 => 0
  | 1 => 31
  | 2 => 59 + l
  | 3 => 90 + l
  | 4 => 120 + l
  | 5 => 151 + l
  | 6 => 181 + l
  | 7 => 212 + l
  | 8 => 243 + l
  | 9 => 273 + l
  | 10 => 304 + l
  | 11 => 334 + l
  | _ => 365 + l
  end.

(** Month (0..11) of day-within-year [dy]. *)
Definition monthOfYearDay (leap : bool) (dy : Z) : Z :=
  if dy <? monthStart leap 1 then 0
  else if dy <? monthStart leap 2 then 1
  else if dy <? monthStart leap 3 then 2
  else if dy <? monthStart leap 4 then 3
  else if dy <? monthStart leap 5 then 4
  else if dy <? monthStart leap 6 then 5
  else if dy <? monthStart leap 7 then 6
  else if dy <? monthStart leap 8 then 7
  else if dy <? monthStart leap 9 then 8
  else if dy <? monthStart leap 10 then 9
  else if dy <? monthStart leap 11 then 10
  else 11.

Definition YearFromTime (t : Z) : Z := YearFromDay (Day t).
Definition InLeapYear (t : Z) : bool := isLeapYear (YearFromTime t).
Definition MonthFromTime (t : Z) : Z :=
  monthOfYearDay (InLeapYear t) (DayWithinYear (Day t)).
Definition DateFromTime (t : Z) : Z :=
  DayWithinYear (Day t) - monthStart (InLeapYear t) (MonthFromTime t) + 1.
Definition WeekDay (t : Z) : Z := (Day t + 4) mod 7.

(** [MakeDay(year, month, date)] for a month in 0..11. *)
Definition MakeDay (year month date : Z) : Z :=
  DayFromYear year + monthStart (isLeapYear year) month + date - 1.

(** The days of month [m] (0..11) of year [y]. *)
Definition daysInMonthOf (y m : Z) : Z :=
  monthStart (isLeapYear y) (m + 1) - monthStart (isLeapYear y) m.

(** [moment#daysInMonth]. *)
Definition daysInMonth (date : Moment) : Z :=
  daysInMonthOf (YearFromTime date) (MonthFromTime date).

(** The first day of the week of moment's default locale ([en]): Sunday. *)
Definition dow : Z := 0.

(** The units [startOf] is called with. *)
Inductive Unit : Type := month | week.

(** [moment#startOf]: the state of the moment after the call. *)
Definition startOf (u : Unit) (date : Moment) : Moment :=
  match u with
  | month =>
      MakeDay (YearFromTime date) (MonthFromTime date) 1 * msPerDay
  | week =>
      let weekday := (WeekDay date + 7 - dow) mod 7 in
      (Day date - weekday) * msPerDay
  end.

(** [moment#add('days', n)]: the state of the moment after the call. *)
Definition add_days (n : Z) (date : Moment) : Moment := date + n * msPerDay.

(** moment's [zeroFill(number, targetLength)], without forced sign. *)
Definition zeroFill (number : Z) (targetLength : nat) : string :=
  let absNumber := dec (Z.abs number) in
  let zerosToFill := (targetLength - String.length absNumber)%nat in
  (if 0 <=? number then "" else "-") +:+ zeros zerosToFill +:+ absNumber.

(** [moment#format('YYYY-MM-DD')]. *)
Definition format_YYYY_MM_DD (date : Moment) : string :=
  zeroFill (YearFromTime date) 4 +:+ "-" +:+
  zeroFill (MonthFromTime date + 1) 2 +:+ "-" +:+
  zeroFill (DateFromTime date) 2.

(** Reading a decimal digit string; [None] on any other character. *)
Fixpoint digits_value (acc : Z) (s : string) : option Z :=
  match s with
  | EmptyString => Some acc
  | String c s' =>
      let n := Z.of_nat (nat_of_ascii c) in
      if (48 <=? n) && (n <=? 57) then digits_value (acc * 10 + (n - 48)) s'
      else None
  end.

(** [moment(string)] for the calendar-date form [YYYY-MM-DD] ([moment.utc]
    reads the same form): the moment at midnight of that day, [None] for an
    invalid date. Parsing and formatting use the same zone, so the zone does
    not show in [moment(s).format('YYYY-MM-DD')]; other forms moment accepts
    are not modelled and read as invalid. *)
Definition moment_parse (s : string) : option Moment :=
  match split "-" s with
  | [ys; ms; ds] =>
      if (String.length ys =? 4)%nat && (String.length ms =? 2)%nat
         && (String.length ds =? 2)%nat then
        match digits_value 0 ys, digits_value 0 ms, digits_value 0 ds with
        | Some y, Some m, Some d =>
            if (1 <=? m) && (m <=? 12) && (1 <=? d)
               && (d <=? daysInMonthOf y (m - 1))
            then Some (MakeDay y (m - 1) d * msPerDay)
            else None
        | _, _, _ => None
        end
      else None
  | _ => None
  end.

(** [moment(s).format('YYYY-MM-DD')]. *)
Definition moment_format (s : string) : string :=
  match moment_parse s with
  | Some m => format_YYYY_MM_DD m
  | None => "Invalid date"
  end.

(* ===================================================================== *)
(** * The store client and the outcome of a call *)
(* ===================================================================== *)

(** What a command's node-style callback receives: [(err)] or
    [(null, reply)]. *)
Inductive Reply (A : Type) : Type :=
| ReplyErr (e : JsError)
| ReplyOk (a : A).
Arguments ReplyErr {A} e.
Arguments ReplyOk {A} a.

(** The three commands the reporter sends. [get] answers [null] ([None])
    for a key that is not set. *)
Record Client : Type := {
  get : string -> Reply (option Buffer);
  strlen : string -> Reply Z;
  getbit : string -> Z -> Reply Z
}.

(** The commands, as they are sent. *)
Inductive StoreReq : Type :=
| ReqGet (key : string)
| ReqStrlen (key : string)
| ReqGetbit (key : string) (offset : Z).

(** How a call ends: [callback(err)], [callback(null, a)], or an exception
    that leaves the function without a call of the callback (the rejection
    of the returned promise, for an [async] function). *)
Inductive Outcome (A : Type) : Type :=
| CallbackErr (e : JsError)
| CallbackOk (a : A)
| Rejected (e : JsError).
Arguments CallbackErr {A} e.
Arguments CallbackOk {A} a.
Arguments Rejected {A} e.

(** A call: how it ends and the commands it sent to the store. *)
Record Run (A : Type) : Type := {
  outcome : Outcome A;
  requests : list StoreReq
}.
Arguments outcome {A} r.
Arguments requests {A} r.

(** Bit [offset] of a byte string as GETBIT reads it: bit 0 is the most
    significant bit of the first byte; past the end every bit is 0. *)
Definition bit_at (value : Buffer) (offset : Z) : Z :=
  if offset <? 0 then 0
  else match nth_error value (Z.to_nat (offset / 8)) with
       | Some b => if Z.testbit (byte_val b) (7 - offset mod 8) then 1 else 0
       | None => 0
       end.

(** A store that answers every command from a map of keys to byte strings,
    as Redis does: GET of an unset key is [null], STRLEN of it is 0, GETBIT
    of it is 0. *)
Definition redisClient (db : gmap string (list byte)) : Client :=
  {| get := fun key => ReplyOk (db !! key);
     strlen := fun key =>
       ReplyOk (match db !! key with
                | Some value => Z.of_nat (length value)
                | None => 0
                end);
     getbit := fun key offset =>
       ReplyOk (match db !! key with
                | Some value => bit_at value offset
                | None => 0
                end) |}.

(* ===================================================================== *)
(** * lib/util.js: keys *)
(* ===================================================================== *)

(** [_.times(n, f)] for a closure [f] that mutates an object it captured:
    [f] takes the index and the state of the object and returns its value
    and the new state. *)
Fixpoint times_from {S A : Type} (i : Z) (n : nat) (f : Z -> S -> A * S) (s : S)
  : list A * S :=
  match n with
  | O => ([], s)
  | Datatypes.S k =>
      let '(a, s1) := f i s in
      let '(rest, s2) := times_from (i + 1) k f s1 in
      (a :: rest, s2)
  end.

Definition times {S A : Type} (n : Z) (f : Z -> S -> A * S) (s : S) : list A * S :=
  times_from 0 (Z.to_nat n) f s.

Section Clock.

(** What [moment.utc()] reads during the call. *)
Variable now : Moment.

(** [moment.utc(date)] for an optional date argument; a given date is
    represented by the (valid) moment it parses to. *)
Definition moment_utc (date : option Moment) : Moment :=
  match date with
  | Some m => m
  | None => now
  end.

(** [util.keyFor]. [date] is a moment or absent. *)
Definition keyFor (action : JsValue) (date : option Moment) : string :=
  let action := or_default action "active" in
  let date := match date with
              | Some m => m
              | None => moment_utc None
              end in
  let date := format_YYYY_MM_DD date in
  Array_join "-" [action; date].

(** [util.monthKeys]: the keys and the state [date] is left in. [day] is
    the object [date] itself, which [startOf] and [add] have changed. *)
Definition monthKeys (date : Moment) (action : JsValue) : list string * Moment :=
  times (daysInMonth date) (fun n date =>
    let day := add_days n (startOf month date) in
    (keyFor action (Some day), day)) date.

(** [util.weekKeys]: the keys and the state [date] is left in. *)
Definition weekKeys (date : Moment) (action : JsValue) : list string * Moment :=
  times 7 (fun n date =>
    let day := add_days n (startOf week date) in
    (keyFor action (Some day), day)) date.

(* ===================================================================== *)
(** * lib/reporter.js: counting *)
(* ===================================================================== *)

(** [async.map(keys, f, cb)]: every command is sent; [cb] receives the
    first error, or else the replies in the order of the keys. Replies are
    taken to arrive in the order the commands were sent. *)
Fixpoint async_map {A B : Type} (keys : list A) (f : A -> Reply B) : Reply (list B) :=
  match keys with
  | [] => ReplyOk []
  | k :: rest =>
      match f k with
      | ReplyErr e => ReplyErr e
      | ReplyOk b =>
          match async_map rest f with
          | ReplyErr e => ReplyErr e
          | ReplyOk bs => ReplyOk (b :: bs)
          end
      end
  end.

(** The reducer of [activeUsers]: one day's integer, or-ed into [memo]. *)
Definition reducer (memo : JsError + Z) (buffer : option Buffer) : JsError + Z :=
  match memo with
  | inl e => inl e
  | inr memo =>
      match buffer with
      | Some buffer =>
          let buffer64 := to64Bits buffer in
          match readBigInt64BE buffer64 with
          | inl e => inl e
          | inr dailyBigint => inr (Z.lor dailyBigint memo)
          end
      | None => inr (Z.lor 0 memo)
      end
  end.

(** [binaryBigint] of [activeUsers]: [_.reduce(results, reducer, 0n)]. *)
Definition binaryBigint (results : list (option Buffer)) : JsError + Z :=
  fold_left reducer results (inr 0).

(** [keyOrKeys]: one key or an array of keys. *)
Inductive KeyOrKeys : Type :=
| OneKey (key : string)
| ManyKeys (keys : list string).

(** [activeUsers]. *)
Definition activeUsers (client : Client) (keyOrKeys : KeyOrKeys) : Run nat :=
  let keys := match keyOrKeys with
              | OneKey key => [key]
              | ManyKeys keys => keys
              end in
  {| requests := map ReqGet keys;
     outcome :=
       match async_map keys (get client) with
       | ReplyErr err => CallbackErr err
       | ReplyOk results =>
           match binaryBigint results with
           | inl e => Rejected e
           | inr binaryBigint => CallbackOk (cardinality binaryBigint)
           end
       end |}.

(** The bit-integer [activeUsers] counts, for the keys of a range. *)
Definition aggregate (client : Client) (keys : list string) : Reply (JsError + Z) :=
  match async_map keys (get client) with
  | ReplyErr err => ReplyErr err
  | ReplyOk results => ReplyOk (binaryBigint results)
  end.

(** The arguments of [daily], [weekly] and [monthly] after [client], by
    [arguments.length]: 4 ([action], [date], [callback]), 3 ([action],
    [callback]) or 2 ([callback]). *)
Inductive ReportArgs : Type :=
| Report4 (action : JsValue) (date : option Moment)
| Report3 (action : JsValue)
| Report2.

Definition report_action (args : ReportArgs) : JsValue :=
  match args with
  | Report4 action _ => action
  | Report3 action => action
  | Report2 => JsNull
  end.

Definition report_date (args : ReportArgs) : Moment :=
  match args with
  | Report4 _ date => moment_utc date
  | Report3 _ => moment_utc None
  | Report2 => moment_utc None
  end.

(** [daily]. *)
Definition daily (client : Client) (args : ReportArgs) : Run nat :=
  let action := report_action args in
  let date := report_date args in
  let key := keyFor action (Some date) in
  activeUsers client (OneKey key).

(** [weekly]. *)
Definition weekly (client : Client) (args : ReportArgs) : Run nat :=
  let action := report_action args in
  let date := report_date args in
  let keys := fst (weekKeys date action) in
  activeUsers client (ManyKeys keys).

(** [monthly]. *)
Definition monthly (client : Client) (args : ReportArgs) : Run nat :=
  let action := report_action args in
  let date := report_date args in
  let keys := fst (monthKeys date action) in
  activeUsers client (ManyKeys keys).

(* ===================================================================== *)
(** * lib/reporter.js: enumeration *)
(* ===================================================================== *)

Record UserEntry : Type := { id : Z; date : string }.

Record UsersList : Type := {
  from : string;
  to : string;
  ids : list UserEntry
}.

(** [`${dateParts[1]}-${dateParts[2]}-${dateParts[3]}`] for
    [dateParts = key.split('-')]. *)
Definition dateOfKey (key : string) : string :=
  let dateParts := split "-" key in
  template_nth dateParts 1 +:+ "-" +:+ template_nth dateParts 2 +:+ "-"
  +:+ template_nth dateParts 3.

(** What one of the concurrent per-key functions does between two
    [await]s. *)
Inductive Step : Type :=
| Request (r : StoreReq)
| Push (u : UserEntry)
| Reject (e : JsError).

(** The per-key function from the reply to [getbit(item, i)] on, with [n]
    iterations of the loop left, this one included: one list of steps for
    each resumption. *)
Fixpoint getbit_turns (client : Client) (item : string) (i : Z) (n : nat)
  : list (list Step) :=
  match n with
  | O => []
  | Datatypes.S k =>
      match getbit client item i with
      | ReplyErr e => [[Reject e]]
      | ReplyOk user =>
          let pushed :=
            if user =? 1
            then [Push {| id := i; date := moment_format (dateOfKey item) |}]
            else [] in
          match k with
          | O => [pushed]
          | Datatypes.S _ =>
              (pushed ++ [Request (ReqGetbit item (i + 1))])
              :: getbit_turns client item (i + 1) k
          end
      end
  end.

(** The per-key function of [getUsers]: it sends STRLEN and suspends; on
    the reply it either ends or enters the loop and sends the first
    GETBIT. *)
Definition key_turns (client : Client) (item : string) : list (list Step) :=
  [Request (ReqStrlen item)]
  :: match strlen client item with
     | ReplyErr e => [[Reject e]]
     | ReplyOk len =>
         let bitmapLen := len * 8 in
         if bitmapLen =? 0 then [[]]
         else if 0 <? bitmapLen then
           [Request (ReqGetbit item 0)]
           :: getbit_turns client item 0 (Z.to_nat bitmapLen)
         else [[]]
     end.

(** [Promise.all(keys.map(async ...))]: the per-key functions all start, in
    the order of the keys, and each runs up to its first [await]; replies
    are taken to arrive in the order the commands were sent, so the
    functions are resumed in rounds, each round in the order of the keys. *)
Definition promise_all (tasks : list (list (list Step))) : list Step :=
  flat_map (fun r => flat_map (fun t => nth r t []) tasks)
           (seq 0 (list_max (map (@length (list Step)) tasks))).

Fixpoint first_reject (steps : list Step) : option JsError :=
  match steps with
  | [] => None
  | Reject e :: _ => Some e
  | _ :: rest => first_reject rest
  end.

Fixpoint pushed_ids (steps : list Step) : list UserEntry :=
  match steps with
  | [] => []
  | Push u :: rest => u :: pushed_ids rest
  | _ :: rest => pushed_ids rest
  end.

Fixpoint sent_requests (steps : list Step) : list StoreReq :=
  match steps with
  | [] => []
  | Request r :: rest => r :: sent_requests rest
  | _ :: rest => sent_requests rest
  end.

(** The arguments of [getUsers] after [client], by [arguments.length]:
    5 ([type], [action], [date], [callback]), 4 ([type], [action],
    [callback]), 3 ([type], [callback]) or 2 ([callback]). *)
Inductive GetUsersArgs : Type :=
| GetUsers5 (type action : JsValue) (date : option Moment)
| GetUsers4 (type action : JsValue)
| GetUsers3 (type : JsValue)
| GetUsers2.

Definition users_type (args : GetUsersArgs) : JsValue :=
  match args with
  | GetUsers5 type _ _ => type
  | GetUsers4 type _ => type
  | GetUsers3 type => type
  | GetUsers2 => JsString "W"
  end.

Definition users_action (args : GetUsersArgs) : JsValue :=
  match args with
  | GetUsers5 _ action _ => action
  | GetUsers4 _ action => action
  | GetUsers3 _ => JsNull
  | GetUsers2 => JsNull
  end.

Definition users_date (args : GetUsersArgs) : Moment :=
  match args with
  | GetUsers5 _ _ date => moment_utc date
  | _ => moment_utc None
  end.

(** The [keys] of [getUsers]; [None] is [undefined], the value of the
    variable when no branch assigns it. *)
Definition users_keys (type action : JsValue) (date : Moment) : option (list string) :=
  if strict_eq type "D" then Some [keyFor action (Some date)]
  else if strict_eq type "W" then Some (fst (weekKeys date action))
  else if strict_eq type "M" then Some (fst (monthKeys date action))
  else None.

(** [getUsers]. Reading [keys[0]] of [undefined], or [split] of
    [undefined] when [keys] is empty, throws a [TypeError]; a rejection of
    [Promise.all] is thrown by [await]; either way the promise [getUsers]
    returns is rejected and [callback] is not called. *)
Definition getUsers (client : Client) (args : GetUsersArgs) : Run UsersList :=
  let type := users_type args in
  let action := users_action args in
  let date := users_date args in
  match users_keys type action date with
  | None =>
      {| outcome := Rejected (TypeError "Cannot read properties of undefined (reading '0')");
         requests := [] |}
  | Some [] =>
      {| outcome := Rejected (TypeError "Cannot read properties of undefined (reading 'split')");
         requests := [] |}
  | Some (key0 :: more) =>
      let keys := key0 :: more in
      let from := dateOfKey key0 in
      let to := dateOfKey (List.last keys key0) in
      let steps := promise_all (map (key_turns client) keys) in
      {| outcome :=
           match first_reject steps with
           | Some e => Rejected e
           | None => CallbackOk {| from := from; to := to; ids := pushed_ids steps |}
           end;
         requests := sent_requests steps |}
  end.

End Clock.

(* ===================================================================== *)
(** * Notions the properties are stated with *)
(* ===================================================================== *)

(** ** Bits *)

(** The number of 1-bits of [n] among the bit positions below [width]. *)
Definition set_bits (n : N) (width : nat) : nat :=
  length (List.filter (fun i => N.testbit n (N.of_nat i)) (seq 0 width)).

(** The number of 1-bits of a positive number. *)
Fixpoint popcount (p : positive) : nat :=
  match p with
  | xH => 1
  | xO q => popcount q
  | xI q => S (popcount q)
  end.

(** The number of 1-bits in the binary representation of [|z|]. *)
Definition magnitude_bits (z : Z) : nat :=
  set_bits (Z.to_N (Z.abs z)) (N.size_nat (Z.to_N (Z.abs z))).

(** The occurrences of the character ['1']. *)
Fixpoint count_ones (s : string) : nat :=
  match s with
  | EmptyString => 0
  | String c s' => ((if Ascii.eqb c "1" then 1 else 0) + count_ones s')%nat
  end.

(** The two's-complement reading of a 64-bit pattern. *)
Definition signed64 (u : Z) : Z := if u <? 2 ^ 63 then u else u - 2 ^ 64.

(** The integer one fetched bitset stands for in the count: the signed
    reading of the first 8 bytes of the padded buffer, 0 for no bitset. *)
Definition day_integer (buffer : option Buffer) : Z :=
  match buffer with
  | Some buffer => signed64 (be_unsigned (firstn 8 (to64Bits buffer)))
  | None => 0
  end.

(** The bitwise or of a list of integers. *)
Definition big_lor (l : list Z) : Z := fold_right Z.lor 0 l.

(** ** Days and keys *)

(** The integers [lo], [lo + 1], ..., [lo + n - 1]. *)
Definition zrange (lo : Z) (n : nat) : list Z :=
  map (fun k => lo + Z.of_nat k) (seq 0 n).

(** The moment at midnight of day number [d]. *)
Definition midnight (d : Z) : Moment := d * msPerDay.

(** A string without a hyphen. *)
Fixpoint no_dash (s : string) : bool :=
  match s with
  | EmptyString => true
  | String c s' => negb (Ascii.eqb c "-") && no_dash s'
  end.

(** ** Stores and replies *)

(** A key with no bitset or an empty one. *)
Definition vacant (client : Client) (key : string) : Prop :=
  (get client key = ReplyOk None \/ get client key = ReplyOk (Some []))
  /\ strlen client key = ReplyOk 0.

(** The integer of a reply, when the fetches and the reduction succeeded. *)
Definition reply_value (r : Reply (JsError + Z)) : option Z :=
  match r with
  | ReplyOk (inr z) => Some z
  | _ => None
  end.

(** The count handed to the callback, when one is. *)
Definition count_value (o : Outcome nat) : option nat :=
  match o with
  | CallbackOk n => Some n
  | _ => None
  end.

(** Both failed, or both succeeded with the same replies in some order. *)
Definition same_replies {B : Type} (r r' : Reply (list B)) : Prop :=
  match r, r' with
  | ReplyErr _, ReplyErr _ => True
  | ReplyOk bs, ReplyOk bs' => Permutation bs bs'
  | _, _ => False
  end.

(** A step that only sends a command. *)
Definition is_request (s : Step) : Prop :=
  match s with
  | Request _ => True
  | _ => False
  end.

(** A store on which every command on the key [bad] fails with [e] and
    every other command is answered from [db]. *)
Definition failing_client (bad : string) (e : JsError) (db : gmap string (list byte))
  : Client :=
  {| get := fun key =>
       if String.eqb key bad then ReplyErr e else get (redisClient db) key;
     strlen := fun key =>
       if String.eqb key bad then ReplyErr e else strlen (redisClient db) key;
     getbit := fun key offset =>
       if String.eqb key bad then ReplyErr e
       else getbit (redisClient db) key offset |}.

(** ** Reading results back *)

(** Reading a string of binary digits; [None] on any other character. *)
Fixpoint binary_value (acc : Z) (s : string) : option Z :=
  match s with
  | EmptyString => Some acc
  | String c s' =>
      if Ascii.eqb c "0" then binary_value (2 * acc) s'
      else if Ascii.eqb c "1" then binary_value (2 * acc + 1) s'
      else None
  end.

(** The entry [getUsers] pushes for bit [i] of the key [key]. *)
Definition entry_of (key : string) (i : Z) : UserEntry :=
  {| id := i; date := moment_format (dateOfKey key) |}.

(** Whether GETBIT answers 1. *)
Definition bit_is_set (client : Client) (key : string) (i : Z) : bool :=
  match getbit client key i with
  | ReplyOk user => user =? 1
  | ReplyErr _ => false
  end.

(** The entries of one key: one for each bit position below 8 times its
    STRLEN whose GETBIT is 1, in ascending order. *)
Definition key_ids (client : Client) (key : string) : list UserEntry :=
  match strlen client key with
  | ReplyOk len =>
      map (entry_of key)
          (List.filter (bit_is_set client key) (zrange 0 (Z.to_nat (len * 8))))
  | ReplyErr _ => []
  end.

(** The positions of one key: the bit positions below 8 times its STRLEN
    whose GETBIT is 1, in ascending order. *)
Definition key_positions (client : Client) (key : string) : list Z :=
  match strlen client key with
  | ReplyOk len =>
      List.filter (bit_is_set client key) (zrange 0 (Z.to_nat (len * 8)))
  | ReplyErr _ => []
  end.

(** A key all of whose commands succeed: its STRLEN and every GETBIT below
    8 times its STRLEN. *)
Definition key_ok (client : Client) (key : string) : Prop :=
  exists len,
    strlen client key = ReplyOk len
    /\ forall j, 0 <= j < len * 8 -> exists user, getbit client key j = ReplyOk user.

(** The days [getUsers] covers: the first day number and the number of
    days, by granularity. *)
Definition users_range (type : JsValue) (date : Moment) : option (Z * nat) :=
  if strict_eq type "D" then Some (Day date, 1%nat)
  else if strict_eq type "W" then Some (Day (startOf week date), 7%nat)
  else if strict_eq type "M"
       then Some (Day (startOf month date), Z.to_nat (daysInMonth date))
  else None.

(** The range of a signed 64-bit integer. *)
Definition int64_range (z : Z) : Prop := - 2 ^ 63 <= z < 2 ^ 63.

(** ** The scenarios of the specification *)

(** The one-byte bitset 0b10100000 for the first of January 2024. *)
Definition store_2024_01_01 : gmap string (list byte) :=
  {[ "active-2024-01-01" := [xa0] ]}.

Definition date_2024_01_01 : Moment := 19723 * msPerDay.

(** The [getUsers] call of the scenario: ['D'], no action, the date
    [2024-01-01]. *)
Definition scenario_call : GetUsersArgs :=
  GetUsers5 (JsString "D") JsUndefined (moment_parse "2024-01-01").

(** All 64 users active. *)
Definition all_ones_64 : Buffer := [xff; xff; xff; xff; xff; xff; xff; xff].

Definition store_all_ones : gmap string (list byte) :=
  {[ "active-2024-01-01" := all_ones_64 ]}.

(** The store of the scenario, with every command on its key failing. *)
Definition broken_client : Client :=
  failing_client "active-2024-01-01" (ClientError "ECONNRESET") store_2024_01_01.

(* ===================================================================== *)
(** * The definitions, run *)
(* ===================================================================== *)

Example day_2024_01_01 : moment_parse "2024-01-01" = Some date_2024_01_01.
Proof. reflexivity. Qed.

Example format_2024_02_29 :
  format_YYYY_MM_DD (19782 * msPerDay + 12345) = "2024-02-29".
Proof. vm_compute. reflexivity. Qed.

Example format_1969_12_31 : format_YYYY_MM_DD (-1) = "1969-12-31".
Proof. vm_compute. reflexivity. Qed.

Example weekday_2024_01_01 : WeekDay date_2024_01_01 = 1.
Proof. reflexivity. Qed.

Example daily_scenario :
  outcome (daily 0 (redisClient store_2024_01_01)
             (Report4 JsUndefined (Some date_2024_01_01)))
  = CallbackOk 2%nat.
Proof. vm_compute. reflexivity. Qed.

Example weekly_scenario :
  outcome (weekly 0 (redisClient (<[ "active-2024-01-02" := [x40] ]>
                                   {[ "active-2024-01-01" := [x80] ]}))
             (Report4 JsUndefined (Some date_2024_01_01)))
  = CallbackOk 2%nat.
Proof. vm_compute. reflexivity. Qed.

Example weekKeys_2024_01_03 :
  fst (weekKeys 0 (19725 * msPerDay + 5000) (JsString "login"))
  = ["login-2023-12-31"; "login-2024-01-01"; "login-2024-01-02";
     "login-2024-01-03"; "login-2024-01-04"; "login-2024-01-05";
     "login-2024-01-06"].
Proof. vm_compute. reflexivity. Qed.

Example monthKeys_2024_02_length :
  length (fst (monthKeys 0 (19782 * msPerDay) JsNull)) = 29%nat.
Proof. vm_compute. reflexivity. Qed.

(** Across keys the entries come in rounds: bit 0 of every key, then bit 1
    of every key, and so on. *)
Example getUsers_two_days :
  outcome (getUsers 0 (redisClient (<[ "active-2024-01-02" := [xc0] ]>
                                     {[ "active-2024-01-01" := [xc0] ]}))
             (GetUsers5 (JsString "W") JsUndefined (Some date_2024_01_01)))
  = CallbackOk {| from := "2023-12-31"; to := "2024-01-06";
                  ids := [ {| id := 0; date := "2024-01-01" |};
                           {| id := 0; date := "2024-01-02" |};
                           {| id := 1; date := "2024-01-01" |};
                           {| id := 1; date := "2024-01-02" |} ] |}.
Proof. vm_compute. reflexivity. Qed.

(* ===================================================================== *)
(** * Strings *)
(* ===================================================================== *)

Lemma append_cons (c : ascii) (s t : string) :
  String c s +:+ t = String c (s +:+ t).
Proof. reflexivity. Qed.

Lemma append_nil_l (t : string) : "" +:+ t = t.
Proof. reflexivity. Qed.

Lemma length_append (s t : string) :
  String.length (s +:+ t) = (String.length s + String.length t)%nat.
Proof.
  induction s as [|c s IH]; [reflexivity|].
  rewrite append_cons. simpl. now rewrite IH.
Qed.

Lemma append_assoc (s t u : string) : (s +:+ t) +:+ u = s +:+ (t +:+ u).
Proof.
  induction s as [|c s IH]; [reflexivity|].
  rewrite !append_cons. now rewrite IH.
Qed.

Lemma append_nil_r (s : string) : s +:+ "" = s.
Proof.
  induction s as [|c s IH]; [reflexivity|].
  rewrite append_cons. now rewrite IH.
Qed.

Lemma get_append_here (pre : string) (c : ascii) (s : string) :
  String.get (String.length pre) (pre +:+ String c s) = Some c.
Proof.
  induction pre as [|d pre IH]; [reflexivity|].
  rewrite append_cons. simpl. exact IH.
Qed.

Lemma append_inv_head (p s t : string) : p +:+ s = p +:+ t -> s = t.
Proof.
  induction p as [|c p IH]; intros H; [exact H|].
  rewrite !append_cons in H. injection H as H. auto.
Qed.

(** Two splittings of one string with tails of the same length agree. *)
Lemma append_eq_tail_length (s1 s2 t1 t2 : string) :
  s1 +:+ t1 = s2 +:+ t2 -> String.length t1 = String.length t2 ->
  s1 = s2 /\ t1 = t2.
Proof.
  revert s2. induction s1 as [|c s1 IH]; intros [|d s2];
    rewrite ?append_cons, ?append_nil_l; intros H L.
  - split; [reflexivity | exact H].
  - exfalso. subst t1. simpl in L. rewrite length_append in L. lia.
  - exfalso. subst t2. simpl in L. rewrite length_append in L. lia.
  - injection H as -> H. destruct (IH _ H L) as [-> ->]. split; reflexivity.
Qed.

(* ===================================================================== *)
(** * cardinality *)
(* ===================================================================== *)

Lemma count_ones_append (s t : string) :
  count_ones (s +:+ t) = (count_ones s + count_ones t)%nat.
Proof.
  induction s as [|c s IH]; [reflexivity|].
  rewrite append_cons. simpl. rewrite IH. lia.
Qed.

Lemma cardinality_loop_counts (pre s : string) (acc : nat) :
  cardinality_loop (pre +:+ s) (String.length pre) (String.length s) acc
  = (acc + count_ones s)%nat.
Proof.
  revert pre acc. induction s as [|c s IH]; intros pre acc; simpl.
  - lia.
  - unfold charAt. rewrite get_append_here.
    replace (pre +:+ String c s) with ((pre +:+ String c "") +:+ s)
      by (rewrite append_assoc; reflexivity).
    replace (S (String.length pre)) with (String.length (pre +:+ String c ""))
      by (rewrite length_append; simpl; lia).
    rewrite IH.
    destruct (Ascii.eqb_spec c "1") as [->|Hc].
    + simpl. lia.
    + replace (String.eqb (String c "") "1") with false.
      * simpl. lia.
      * symmetry. apply String.eqb_neq. congruence.
Qed.

Lemma cardinality_count_ones (z : Z) :
  cardinality z = count_ones (BigInt_toString2 z).
Proof.
  unfold cardinality.
  exact (cardinality_loop_counts "" (BigInt_toString2 z) 0).
Qed.

Lemma count_ones_pos (p : positive) : count_ones (pos_toString2 p) = popcount p.
Proof.
  induction p as [q IH|q IH|]; simpl; try rewrite count_ones_append, IH; simpl; lia.
Qed.

Lemma cardinality_pos (p : positive) : cardinality (Zpos p) = popcount p.
Proof. rewrite cardinality_count_ones. apply count_ones_pos. Qed.

Lemma cardinality_neg (p : positive) : cardinality (Zneg p) = popcount p.
Proof. rewrite cardinality_count_ones. simpl. apply count_ones_pos. Qed.

Lemma cardinality_abs (z : Z) : cardinality z = cardinality (Z.abs z).
Proof.
  destruct z as [|p|p]; try reflexivity.
  change (Z.abs (Zneg p)) with (Zpos p).
  now rewrite cardinality_pos, cardinality_neg.
Qed.

Lemma set_bits_shift (n : N) (l : list nat) :
  length (List.filter (fun i => N.testbit n (N.of_nat i)) (map S l))
  = length (List.filter (fun i => N.testbit (N.div2 n) (N.of_nat i)) l).
Proof.
  induction l as [|i l IH]; [reflexivity|].
  cbn [map List.filter].
  replace (N.testbit (N.div2 n) (N.of_nat i)) with (N.testbit n (N.of_nat (S i)))
    by (rewrite Nnat.Nat2N.inj_succ; symmetry; apply N.testbit_div2).
  destruct (N.testbit n (N.of_nat (S i))); cbn [length]; rewrite IH; reflexivity.
Qed.

Lemma set_bits_succ (n : N) (w : nat) :
  set_bits n (S w)
  = ((if N.testbit n 0 then 1 else 0) + set_bits (N.div2 n) w)%nat.
Proof.
  unfold set_bits. rewrite <- cons_seq, <- seq_shift. cbn [List.filter].
  change (N.of_nat 0) with 0%N.
  destruct (N.testbit n 0); cbn [length]; rewrite set_bits_shift; reflexivity.
Qed.

Lemma set_bits_zero (w : nat) : set_bits 0 w = 0%nat.
Proof.
  unfold set_bits. induction (seq 0 w) as [|i l IH]; [reflexivity|].
  cbn [List.filter]. rewrite N.bits_0. exact IH.
Qed.

Lemma set_bits_pos (p : positive) (k : nat) :
  set_bits (Npos p) (Pos.size_nat p + k) = popcount p.
Proof.
  induction p as [q IH|q IH|]; simpl Pos.size_nat; simpl Nat.add;
    rewrite set_bits_succ; simpl.
  - now rewrite IH.
  - now rewrite IH.
  - now rewrite set_bits_zero.
Qed.

(** On a non-negative integer [cardinality] is the population count, at
    any width that holds the integer. *)
Lemma cardinality_set_bits (n : N) (k : nat) :
  cardinality (Z.of_N n) = set_bits n (N.size_nat n + k).
Proof.
  destruct n as [|p]; simpl.
  - now rewrite set_bits_zero.
  - now rewrite cardinality_pos, set_bits_pos.
Qed.

(* ===================================================================== *)
(** * Buffers *)
(* ===================================================================== *)

Lemma byte_val_range (b : byte) : 0 <= byte_val b < 256.
Proof.
  unfold byte_val. pose proof (Byte.to_N_bounded b). lia.
Qed.

Lemma be_unsigned_app (a b : list byte) :
  be_unsigned (a ++ b)
  = fold_left (fun acc x => acc * 256 + byte_val x) b (be_unsigned a).
Proof. unfold be_unsigned. apply fold_left_app. Qed.

Lemma be_unsigned_zeros (k : nat) : be_unsigned (repeat x00 k) = 0.
Proof.
  unfold be_unsigned. induction k as [|k IH]; [reflexivity|]. simpl. exact IH.
Qed.

(** Zero bytes in front do not change the value. *)
Lemma be_unsigned_pad (k : nat) (buffer : Buffer) :
  be_unsigned (Buffer_alloc k ++ buffer) = be_unsigned buffer.
Proof.
  unfold Buffer_alloc. rewrite be_unsigned_app, be_unsigned_zeros. reflexivity.
Qed.

Lemma fold_be_range (bs : list byte) (acc : Z) :
  0 <= acc ->
  0 <= fold_left (fun a x => a * 256 + byte_val x) bs acc
    < (acc + 1) * 256 ^ Z.of_nat (length bs).
Proof.
  revert acc. induction bs as [|b bs IH]; intros acc Hacc.
  - simpl. lia.
  - pose proof (byte_val_range b) as Hb.
    specialize (IH (acc * 256 + byte_val b) ltac:(lia)).
    cbn [fold_left length]. rewrite Nat2Z.inj_succ, Z.pow_succ_r by lia.
    nia.
Qed.

Lemma be_unsigned_range (bs : list byte) :
  0 <= be_unsigned bs < 256 ^ Z.of_nat (length bs).
Proof.
  pose proof (fold_be_range bs 0 ltac:(lia)) as H. unfold be_unsigned. lia.
Qed.

Lemma to64Bits_short (buffer : Buffer) :
  (length buffer < 8)%nat ->
  to64Bits buffer = Buffer_alloc (8 - length buffer) ++ buffer.
Proof.
  intros H. unfold to64Bits, Buffer_concat.
  destruct (Nat.ltb_spec (length buffer) 8) as [_|]; [|lia].
  cbn [List.concat]. rewrite app_nil_r.
  assert (L : length (Buffer_alloc (8 - length buffer) ++ buffer) = 8%nat).
  { unfold Buffer_alloc. rewrite length_app, repeat_length. lia. }
  rewrite firstn_all2 by lia. rewrite L. simpl. now rewrite app_nil_r.
Qed.

Lemma to64Bits_long (buffer : Buffer) :
  (8 <= length buffer)%nat -> to64Bits buffer = buffer.
Proof.
  intros H. unfold to64Bits.
  destruct (Nat.ltb_spec (length buffer) 8); [lia | reflexivity].
Qed.

Lemma to64Bits_length (buffer : Buffer) : (8 <= length (to64Bits buffer))%nat.
Proof.
  destruct (Nat.lt_ge_cases (length buffer) 8) as [H|H].
  - rewrite to64Bits_short by exact H. unfold Buffer_alloc.
    rewrite length_app, repeat_length. lia.
  - now rewrite to64Bits_long.
Qed.

Lemma int32_shift (b : byte) :
  int32 (Z.shiftl (byte_val b) 24)
  = if byte_val b <? 128 then byte_val b * 2 ^ 24
    else byte_val b * 2 ^ 24 - 2 ^ 32.
Proof.
  pose proof (byte_val_range b) as Hb.
  rewrite Z.shiftl_mul_pow2 by lia. unfold int32.
  destruct (Z.ltb_spec (byte_val b) 128).
  - rewrite Z.mod_small; lia.
  - rewrite <- (Z.mod_add _ (-1)) by lia. rewrite Z.mod_small; lia.
Qed.

(** [readBigInt64BE] is the two's-complement reading of the first eight
    bytes. *)
Lemma readBigInt64BE_signed (b0 b1 b2 b3 b4 b5 b6 b7 : byte) (rest : list byte) :
  readBigInt64BE (b0 :: b1 :: b2 :: b3 :: b4 :: b5 :: b6 :: b7 :: rest)
  = inr (signed64 (be_unsigned [b0; b1; b2; b3; b4; b5; b6; b7])).
Proof.
  unfold readBigInt64BE. f_equal. rewrite int32_shift.
  pose proof (byte_val_range b0). pose proof (byte_val_range b1).
  pose proof (byte_val_range b2). pose proof (byte_val_range b3).
  pose proof (byte_val_range b4). pose proof (byte_val_range b5).
  pose proof (byte_val_range b6). pose proof (byte_val_range b7).
  rewrite Z.shiftl_mul_pow2 by lia.
  unfold signed64, be_unsigned. cbn [fold_left].
  destruct (Z.ltb_spec (byte_val b0) 128);
    match goal with |- context [?u <? 2 ^ 63] => destruct (Z.ltb_spec u (2 ^ 63)) end;
    lia.
Qed.

Lemma readBigInt64BE_to64Bits (buffer : Buffer) :
  readBigInt64BE (to64Bits buffer) = inr (day_integer (Some buffer)).
Proof.
  unfold day_integer. pose proof (to64Bits_length buffer) as L.
  destruct (to64Bits buffer) as [|b0 [|b1 [|b2 [|b3 [|b4 [|b5 [|b6 [|b7 rest]]]]]]]];
    simpl in L; try lia.
  apply readBigInt64BE_signed.
Qed.

(** A buffer of fewer than 8 bytes reads as its own unsigned value. *)
Lemma day_integer_short (buffer : Buffer) :
  (length buffer < 8)%nat ->
  day_integer (Some buffer) = be_unsigned buffer.
Proof.
  intros H. unfold day_integer. rewrite to64Bits_short by exact H.
  assert (L : length (Buffer_alloc (8 - length buffer) ++ buffer) = 8%nat).
  { unfold Buffer_alloc. rewrite length_app, repeat_length. lia. }
  rewrite firstn_all2 by lia. rewrite be_unsigned_pad.
  pose proof (be_unsigned_range buffer) as R.
  assert (256 ^ Z.of_nat (length buffer) <= 256 ^ 7)
    by (apply Z.pow_le_mono_r; lia).
  unfold signed64. destruct (Z.ltb_spec (be_unsigned buffer) (2 ^ 63)); lia.
Qed.

(* ===================================================================== *)
(** * The aggregate *)
(* ===================================================================== *)

Lemma reducer_ok (memo : Z) (buffer : option Buffer) :
  reducer (inr memo) buffer = inr (Z.lor (day_integer buffer) memo).
Proof.
  destruct buffer as [buffer|]; [|reflexivity].
  unfold reducer. now rewrite readBigInt64BE_to64Bits.
Qed.

Lemma fold_reducer (results : list (option Buffer)) (memo : Z) :
  fold_left reducer results (inr memo)
  = inr (Z.lor (big_lor (map day_integer results)) memo).
Proof.
  revert memo. induction results as [|b rest IH]; intros memo.
  - reflexivity.
  - cbn [fold_left map big_lor fold_right]. rewrite reducer_ok, IH.
    fold (big_lor (map day_integer rest)). f_equal.
    rewrite Z.lor_assoc, (Z.lor_comm (big_lor _) (day_integer b)). reflexivity.
Qed.

(** The reduction never throws: it is the bitwise or of the days'
    integers. *)
Lemma binaryBigint_big_lor (results : list (option Buffer)) :
  binaryBigint results = inr (big_lor (map day_integer results)).
Proof. unfold binaryBigint. now rewrite fold_reducer, Z.lor_0_r. Qed.

Lemma big_lor_app (l1 l2 : list Z) :
  big_lor (l1 ++ l2) = Z.lor (big_lor l1) (big_lor l2).
Proof.
  induction l1 as [|x l1 IH]; [reflexivity|].
  cbn [app big_lor fold_right]. fold (big_lor (l1 ++ l2)). fold (big_lor l1).
  now rewrite IH, Z.lor_assoc.
Qed.

Lemma big_lor_perm (l l' : list Z) : Permutation l l' -> big_lor l = big_lor l'.
Proof.
  induction 1 as [|x l l' _ IH|x y l|l l' l'' _ IH1 _ IH2].
  - reflexivity.
  - cbn [big_lor fold_right]. fold (big_lor l). fold (big_lor l'). now rewrite IH.
  - cbn [big_lor fold_right]. rewrite !Z.lor_assoc. f_equal. apply Z.lor_comm.
  - congruence.
Qed.

Lemma big_lor_neg (l : list Z) (x : Z) : In x l -> x < 0 -> big_lor l < 0.
Proof.
  induction l as [|y l IH]; intros HI Hx; [destruct HI|].
  cbn [big_lor fold_right]. fold (big_lor l). apply Z.lor_neg.
  destruct HI as [->|HI]; [left; exact Hx | right; auto].
Qed.

Lemma big_lor_only_aux (l : list Z) (v : Z) :
  (forall x, In x l -> x = v \/ x = 0) ->
  (big_lor l = v \/ big_lor l = 0) /\ (In v l -> big_lor l = v).
Proof.
  induction l as [|y l IH]; intros HA.
  - split; [right; reflexivity | intros []].
  - cbn [big_lor fold_right]. fold (big_lor l).
    destruct IH as [T I]; [intros x Hx; apply HA; now right|].
    destruct (HA y (or_introl eq_refl)) as [-> | ->].
    + assert (E : Z.lor v (big_lor l) = v)
        by (destruct T as [-> | ->]; [apply Z.lor_diag | apply Z.lor_0_r]).
      rewrite E. split; [now left | reflexivity].
    + rewrite Z.lor_0_l. split; [exact T|].
      intros [<-|HI]; [|now apply I].
      destruct T as [T|T]; [exact T | now rewrite T].
Qed.

(** The or of a list that holds [v] and otherwise only [v] and 0. *)
Lemma big_lor_only (l : list Z) (v : Z) :
  In v l -> (forall x, In x l -> x = v \/ x = 0) -> big_lor l = v.
Proof. intros HI HA. now apply (big_lor_only_aux l v HA). Qed.

Lemma async_map_app {A B : Type} (f : A -> Reply B) (k1 k2 : list A) :
  async_map (k1 ++ k2) f
  = match async_map k1 f with
    | ReplyErr e => ReplyErr e
    | ReplyOk b1 =>
        match async_map k2 f with
        | ReplyErr e => ReplyErr e
        | ReplyOk b2 => ReplyOk (b1 ++ b2)
        end
    end.
Proof.
  induction k1 as [|k k1 IH]; cbn [app async_map].
  - destruct (async_map k2 f); reflexivity.
  - destruct (f k); [reflexivity|]. rewrite IH.
    destruct (async_map k1 f); [reflexivity|].
    destruct (async_map k2 f); reflexivity.
Qed.

Lemma same_replies_trans {B : Type} (r1 r2 r3 : Reply (list B)) :
  same_replies r1 r2 -> same_replies r2 r3 -> same_replies r1 r3.
Proof.
  destruct r1, r2, r3; cbn; try tauto. apply Permutation_trans.
Qed.

Lemma async_map_perm {A B : Type} (f : A -> Reply B) (keys keys' : list A) :
  Permutation keys keys' -> same_replies (async_map keys f) (async_map keys' f).
Proof.
  induction 1 as [|x l l' _ IH|x y l|l l' l'' _ IH1 _ IH2].
  - cbn. apply perm_nil.
  - cbn [async_map]. destruct (f x); [exact I|].
    destruct (async_map l f), (async_map l' f); cbn in *; try tauto.
    now apply perm_skip.
  - cbn [async_map]. destruct (f x), (f y); try exact I;
      destruct (async_map l f); cbn; try exact I.
    apply perm_swap.
  - eapply same_replies_trans; eassumption.
Qed.

(** Every reply of a successful [async.map] is the reply to one of the
    keys. *)
Lemma async_map_ok_length {A B : Type} (f : A -> Reply B) (keys : list A) (bs : list B) :
  async_map keys f = ReplyOk bs -> length bs = length keys.
Proof.
  revert bs. induction keys as [|k keys IH]; intros bs; cbn [async_map].
  - intros [= <-]. reflexivity.
  - destruct (f k); [discriminate|]. destruct (async_map keys f); [discriminate|].
    intros [= <-]. cbn. f_equal. now apply IH.
Qed.

Lemma async_map_all {A B : Type} (f : A -> Reply B) (keys : list A) (b : B) :
  (forall k, In k keys -> f k = ReplyOk b) ->
  async_map keys f = ReplyOk (repeat b (length keys)).
Proof.
  induction keys as [|k keys IH]; intros H; cbn [async_map]; [reflexivity|].
  rewrite (H k) by (left; reflexivity).
  rewrite IH by (intros; apply H; right; assumption). reflexivity.
Qed.

(** A failed fetch: [async.map] hands over an error, that of the first key
    in the list whose fetch fails. *)
Lemma async_map_failure {A B : Type} (f : A -> Reply B) (keys : list A) :
  (exists k e, In k keys /\ f k = ReplyErr e) ->
  exists pre k post e,
    keys = pre ++ k :: post /\ f k = ReplyErr e
    /\ (forall k', In k' pre -> exists b, f k' = ReplyOk b)
    /\ async_map keys f = ReplyErr e.
Proof.
  induction keys as [|k keys IH]; intros (k0 & e0 & HI & Hf); [destruct HI|].
  cbn [async_map]. destruct (f k) as [e|b] eqn:Ek.
  - exists [], k, keys, e. repeat split; auto. intros k' [].
  - destruct IH as (pre & k1 & post & e1 & -> & Hk1 & Hpre & Hm).
    { destruct HI as [->|HI]; [congruence|]. eauto. }
    exists (k :: pre), k1, post, e1. rewrite Hm. repeat split; auto.
    intros k' [<-|HI']; eauto.
Qed.

Lemma aggregate_ok (client : Client) (keys : list string) (results : list (option Buffer)) :
  async_map keys (get client) = ReplyOk results ->
  aggregate client keys = ReplyOk (inr (big_lor (map day_integer results))).
Proof. intros H. unfold aggregate. now rewrite H, binaryBigint_big_lor. Qed.

Lemma activeUsers_ok (client : Client) (keys : list string) (results : list (option Buffer)) :
  async_map keys (get client) = ReplyOk results ->
  outcome (activeUsers client (ManyKeys keys))
  = CallbackOk (cardinality (big_lor (map day_integer results))).
Proof.
  intros H. unfold activeUsers. cbn [outcome].
  now rewrite H, binaryBigint_big_lor.
Qed.

Lemma cardinality_magnitude (z : Z) : cardinality z = magnitude_bits z.
Proof.
  rewrite cardinality_abs. unfold magnitude_bits.
  rewrite <- (Z2N.id (Z.abs z)) at 1 by apply Z.abs_nonneg.
  rewrite (cardinality_set_bits _ 0). now rewrite Nat.add_0_r.
Qed.

(* ===================================================================== *)
(** * Normalization and counting *)
(* ===================================================================== *)

(** A buffer shorter than 8 bytes is left-padded with zero bytes to exactly
    8 bytes, and the integer read from it is its big-endian unsigned value,
    which is not negative. *)
Lemma normalize_short_buffer (buffer : Buffer) :
  (length buffer < 8)%nat ->
  to64Bits buffer = Buffer_alloc (8 - length buffer) ++ buffer
  /\ length (to64Bits buffer) = 8%nat
  /\ readBigInt64BE (to64Bits buffer) = inr (be_unsigned buffer)
  /\ 0 <= be_unsigned buffer.
Proof.
  intros H. split; [now apply to64Bits_short|]. split; [|split].
  - rewrite to64Bits_short by exact H. unfold Buffer_alloc.
    rewrite length_app, repeat_length. lia.
  - rewrite readBigInt64BE_to64Bits. f_equal. now apply day_integer_short.
  - apply be_unsigned_range.
Qed.

(** C1, at the 8-byte buffer of eight 0xFF bytes: normalization leaves the
    buffer as it is, its big-endian unsigned value is 2^64 - 1, the integer
    read for the aggregation is -1, and [daily] reports 1. *)
Theorem C1_full_width_buffer_is_read_signed :
  to64Bits all_ones_64 = all_ones_64
  /\ be_unsigned all_ones_64 = 2 ^ 64 - 1
  /\ readBigInt64BE (to64Bits all_ones_64) = inr (-1)
  /\ outcome (daily 0 (redisClient store_all_ones)
                (Report4 JsUndefined (Some date_2024_01_01)))
     = CallbackOk 1%nat.
Proof. repeat split; vm_compute; reflexivity. Qed.

(** C2: [cardinality 0 = 0]; on a non-negative integer [cardinality] is the
    number of 1-bits, counted at the minimal width or at any larger width;
    on any integer it is the number of digits 1 of the binary string, the
    number of 1-bits of the magnitude; and it does not change when the
    bytes of the integer are left-padded with zero bytes. *)
Theorem C2_cardinality_counts_set_bits :
  cardinality 0 = 0%nat
  /\ (forall (n : N) (k : nat),
        cardinality (Z.of_N n) = set_bits n (N.size_nat n + k))
  /\ (forall z : Z,
        cardinality z = count_ones (BigInt_toString2 z)
        /\ cardinality z = magnitude_bits z)
  /\ (forall (k : nat) (buffer : Buffer),
        cardinality (be_unsigned (Buffer_alloc k ++ buffer))
        = cardinality (be_unsigned buffer)).
Proof.
  split; [reflexivity|]. split; [|split].
  - apply cardinality_set_bits.
  - intros z. split; [apply cardinality_count_ones | apply cardinality_magnitude].
  - intros k buffer. now rewrite be_unsigned_pad.
Qed.

Lemma activeUsers_aggregate (client : Client) (keys : list string) :
  outcome (activeUsers client (ManyKeys keys))
  = match aggregate client keys with
    | ReplyErr err => CallbackErr err
    | ReplyOk (inl e) => Rejected e
    | ReplyOk (inr z) => CallbackOk (cardinality z)
    end.
Proof.
  unfold activeUsers, aggregate. cbn [outcome].
  destruct (async_map keys (get client)); reflexivity.
Qed.

Lemma aggregate_twice (client : Client) (keys : list string) :
  aggregate client (keys ++ keys) = aggregate client keys.
Proof.
  unfold aggregate. rewrite async_map_app.
  destruct (async_map keys (get client)) as [e|bs]; [reflexivity|].
  rewrite !binaryBigint_big_lor, map_app, big_lor_app, Z.lor_diag.
  reflexivity.
Qed.

Lemma aggregate_perm (client : Client) (keys keys' : list string) :
  Permutation keys keys' ->
  reply_value (aggregate client keys) = reply_value (aggregate client keys').
Proof.
  intros HP. pose proof (async_map_perm (get client) keys keys' HP) as HS.
  unfold aggregate.
  destruct (async_map keys (get client)) as [e|bs],
           (async_map keys' (get client)) as [e'|bs']; cbn in HS;
    try contradiction; [reflexivity|].
  rewrite !binaryBigint_big_lor. cbn. f_equal.
  apply big_lor_perm. now apply Permutation_map.
Qed.

Lemma aggregate_shape (client : Client) (keys : list string) :
  (exists e, aggregate client keys = ReplyErr e)
  \/ (exists z, aggregate client keys = ReplyOk (inr z)).
Proof.
  unfold aggregate. destruct (async_map keys (get client)) as [e|bs]; [eauto|].
  rewrite binaryBigint_big_lor. eauto.
Qed.

(** C3: for every store and every key sequence, a permutation of the keys
    gives the same aggregate integer (and fails when the original fails),
    hence the same count, and the keys listed twice give the same result
    as the keys listed once. *)
Theorem C3_aggregate_order_independent_idempotent (client : Client) :
  (forall keys keys' : list string,
      Permutation keys keys' ->
      reply_value (aggregate client keys) = reply_value (aggregate client keys')
      /\ count_value (outcome (activeUsers client (ManyKeys keys)))
         = count_value (outcome (activeUsers client (ManyKeys keys'))))
  /\ (forall keys : list string,
        aggregate client (keys ++ keys) = aggregate client keys
        /\ outcome (activeUsers client (ManyKeys (keys ++ keys)))
           = outcome (activeUsers client (ManyKeys keys))).
Proof.
  split.
  - intros keys keys' HP. pose proof (aggregate_perm client keys keys' HP) as E.
    split; [exact E|]. rewrite !activeUsers_aggregate.
    destruct (aggregate_shape client keys) as [[e Ha]|[z Ha]],
             (aggregate_shape client keys') as [[e' Hb]|[z' Hb]];
      rewrite Ha, Hb in *; cbn in E |- *; congruence.
  - intros keys. split; [apply aggregate_twice|].
    now rewrite !activeUsers_aggregate, aggregate_twice.
Qed.

Lemma C3_witness :
  reply_value (aggregate (redisClient store_2024_01_01)
                 ["active-2024-01-01"; "active-2024-01-02"])
  = reply_value (aggregate (redisClient store_2024_01_01)
                   ["active-2024-01-02"; "active-2024-01-01"]).
Proof.
  apply (proj1 (C3_aggregate_order_independent_idempotent
                  (redisClient store_2024_01_01))).
  apply perm_swap.
Defined.

(* ===================================================================== *)
(** * The calendar *)
(* ===================================================================== *)

Lemma isLeapYear_spec (y : Z) :
  isLeapYear y = true <-> (y mod 4 = 0 /\ (y mod 100 <> 0 \/ y mod 400 = 0)).
Proof.
  unfold isLeapYear. rewrite andb_true_iff, orb_true_iff, negb_true_iff.
  rewrite !Z.eqb_eq, Z.eqb_neq. tauto.
Qed.

Lemma DayFromYear_succ (y : Z) : DayFromYear (y + 1) = DayFromYear y + DaysInYear y.
Proof.
  unfold DaysInYear, DayFromYear. destruct (isLeapYear y) eqn:E.
  - apply isLeapYear_spec in E. Z.div_mod_to_equations. lia.
  - assert (H : ~ (y mod 4 = 0 /\ (y mod 100 <> 0 \/ y mod 400 = 0)))
      by (rewrite <- isLeapYear_spec; congruence).
    Z.div_mod_to_equations. lia.
Qed.

Lemma DayFromYear_mono (y y' : Z) : y <= y' -> DayFromYear y <= DayFromYear y'.
Proof. intros H. unfold DayFromYear. Z.div_mod_to_equations. lia. Qed.

(** [YearFromDay d] is the year whose days include [d]. *)
Lemma YearFromDay_spec (d : Z) :
  DayFromYear (YearFromDay d) <= d < DayFromYear (YearFromDay d + 1).
Proof.
  unfold YearFromDay. set (y0 := 1970 + d * 400 / 146097).
  assert (H1 : DayFromYear (y0 - 1) <= d)
    by (unfold DayFromYear, y0; Z.div_mod_to_equations; lia).
  assert (H2 : d < DayFromYear (y0 + 2))
    by (unfold DayFromYear, y0; Z.div_mod_to_equations; lia).
  destruct (Z.leb_spec (DayFromYear (y0 + 1)) d).
  - replace (y0 + 1 + 1) with (y0 + 2) by lia. lia.
  - destruct (Z.leb_spec (DayFromYear y0) d).
    + lia.
    + replace (y0 - 1 + 1) with y0 by lia. lia.
Qed.

Lemma YearFromDay_unique (y d : Z) :
  DayFromYear y <= d < DayFromYear (y + 1) -> YearFromDay d = y.
Proof.
  intros H. pose proof (YearFromDay_spec d) as S.
  destruct (Z.lt_trichotomy (YearFromDay d) y) as [L|[E|L]]; [|exact E|].
  - pose proof (DayFromYear_mono (YearFromDay d + 1) y ltac:(lia)). lia.
  - pose proof (DayFromYear_mono (y + 1) (YearFromDay d) ltac:(lia)). lia.
Qed.

Lemma DayWithinYear_range (d : Z) :
  0 <= DayWithinYear d < DaysInYear (YearFromDay d).
Proof.
  unfold DayWithinYear. pose proof (YearFromDay_spec d) as S.
  rewrite DayFromYear_succ in S. lia.
Qed.

Ltac month_cases m :=
  let H := fresh in
  assert (H : m = 0 \/ m = 1 \/ m = 2 \/ m = 3 \/ m = 4 \/ m = 5 \/ m = 6
              \/ m = 7 \/ m = 8 \/ m = 9 \/ m = 10 \/ m = 11) by lia;
  repeat (destruct H as [H|H]; [subst m|]); [..|subst m].

Ltac month_compute :=
  repeat match goal with
         | |- context [monthStart ?l ?m] =>
             let v := eval vm_compute in (monthStart l m) in
             change (monthStart l m) with v
         | H : context [monthStart ?l ?m] |- _ =>
             let v := eval vm_compute in (monthStart l m) in
             change (monthStart l m) with v in H
         end.

Lemma monthOfYearDay_spec (leap : bool) (dy : Z) :
  0 <= dy < (if leap then 366 else 365) ->
  0 <= monthOfYearDay leap dy <= 11
  /\ monthStart leap (monthOfYearDay leap dy) <= dy
     < monthStart leap (monthOfYearDay leap dy + 1).
Proof.
  intros H. unfold monthOfYearDay.
  repeat match goal with
         | |- context [?a <? ?b] => destruct (Z.ltb_spec a b)
         end; destruct leap; month_compute; lia.
Qed.

Lemma monthOfYearDay_unique (leap : bool) (m dy : Z) :
  0 <= m <= 11 ->
  monthStart leap m <= dy < monthStart leap (m + 1) ->
  monthOfYearDay leap dy = m.
Proof.
  intros Hm H. unfold monthOfYearDay.
  month_cases m; destruct leap; month_compute;
    repeat match goal with
           | |- context [?a <? ?b] => destruct (Z.ltb_spec a b)
           end; lia.
Qed.

Lemma daysInMonthOf_range (y m : Z) :
  0 <= m <= 11 -> 28 <= daysInMonthOf y m <= 31.
Proof.
  intros Hm. unfold daysInMonthOf.
  month_cases m; destruct (isLeapYear y); month_compute; lia.
Qed.

Lemma monthStart_range (leap : bool) (m : Z) :
  0 <= m <= 11 ->
  0 <= monthStart leap m
  /\ monthStart leap (m + 1) <= (if leap then 366 else 365).
Proof.
  intros Hm. month_cases m; destruct leap; month_compute; lia.
Qed.

Lemma Day_midnight (d : Z) : Day (midnight d) = d.
Proof. unfold Day, midnight, msPerDay. apply Z.div_mul. lia. Qed.

Lemma Day_add_days (n : Z) (t : Moment) : Day (add_days n t) = Day t + n.
Proof. unfold Day, add_days, msPerDay. apply Z.div_add. lia. Qed.

Lemma add_days_midnight (n d : Z) : add_days n (midnight d) = midnight (d + n).
Proof. unfold add_days, midnight. lia. Qed.

(** The year, month and date of a moment are those of a calendar day, and
    they determine the day. *)
Lemma civil_range (t : Moment) :
  0 <= MonthFromTime t <= 11 /\ 1 <= DateFromTime t <= daysInMonth t.
Proof.
  unfold DateFromTime, daysInMonth, daysInMonthOf, MonthFromTime, InLeapYear,
    YearFromTime.
  pose proof (DayWithinYear_range (Day t)) as R. unfold DaysInYear in R.
  pose proof (monthOfYearDay_spec (isLeapYear (YearFromDay (Day t)))
                (DayWithinYear (Day t)) R).
  lia.
Qed.

Lemma Day_MakeDay (t : Moment) :
  Day t = MakeDay (YearFromTime t) (MonthFromTime t) (DateFromTime t).
Proof.
  unfold MakeDay, DateFromTime, InLeapYear, YearFromTime, DayWithinYear. lia.
Qed.

Lemma civil_MakeDay (y m d : Z) (t : Moment) :
  0 <= m <= 11 -> 1 <= d <= daysInMonthOf y m -> Day t = MakeDay y m d ->
  YearFromTime t = y /\ MonthFromTime t = m /\ DateFromTime t = d.
Proof.
  intros Hm Hd E.
  pose proof (monthStart_range (isLeapYear y) m Hm) as R.
  assert (Y : YearFromTime t = y).
  { unfold YearFromTime. apply YearFromDay_unique. rewrite E, DayFromYear_succ.
    unfold MakeDay, daysInMonthOf, DaysInYear in *. lia. }
  assert (M : MonthFromTime t = m).
  { unfold MonthFromTime, InLeapYear, DayWithinYear. fold (YearFromTime t).
    rewrite Y. apply monthOfYearDay_unique; [exact Hm|].
    rewrite E. unfold MakeDay, daysInMonthOf in *. lia. }
  split; [exact Y|]. split; [exact M|].
  unfold DateFromTime, InLeapYear, DayWithinYear. fold (YearFromTime t).
  rewrite M, Y, E. unfold MakeDay. lia.
Qed.

Lemma daysInMonth_range (t : Moment) : 28 <= daysInMonth t <= 31.
Proof. apply daysInMonthOf_range, civil_range. Qed.

(** ** [startOf] and [add] *)

Lemma startOf_week_midnight (t : Moment) :
  startOf week t = midnight (Day t - (Day t + 4) mod 7).
Proof.
  unfold startOf, midnight, WeekDay, dow. f_equal. f_equal.
  rewrite Z.sub_0_r, <- Z.add_mod_idemp_r, Z.mod_same, Z.add_0_r by lia.
  apply Z.mod_mod. lia.
Qed.

(** The week of a moment starts on the locale's first day of the week and
    holds the moment's day. *)
Lemma startOf_week_spec (t : Moment) :
  WeekDay (startOf week t) = dow
  /\ Day (startOf week t) <= Day t < Day (startOf week t) + 7.
Proof.
  rewrite startOf_week_midnight. unfold WeekDay, dow. rewrite Day_midnight.
  Z.div_mod_to_equations. lia.
Qed.

(** Within its week, a moment's week start does not move. *)
Lemma startOf_week_fixed (t : Moment) (n : Z) :
  0 <= n < 7 -> startOf week (add_days n (startOf week t)) = startOf week t.
Proof.
  intros H. rewrite !startOf_week_midnight, Day_add_days, Day_midnight.
  f_equal. Z.div_mod_to_equations. lia.
Qed.

Lemma startOf_month_midnight (t : Moment) :
  startOf month t = midnight (MakeDay (YearFromTime t) (MonthFromTime t) 1).
Proof. reflexivity. Qed.

(** The [n]-th day after the start of the month, for [n] below the number
    of days of the month, is the day [n + 1] of the same month. *)
Lemma month_day (t : Moment) (n : Z) :
  0 <= n < daysInMonth t ->
  let day := add_days n (startOf month t) in
  YearFromTime day = YearFromTime t /\ MonthFromTime day = MonthFromTime t
  /\ DateFromTime day = n + 1.
Proof.
  intros H day. apply civil_MakeDay.
  - apply civil_range.
  - unfold daysInMonth in H. lia.
  - unfold day. rewrite Day_add_days, startOf_month_midnight, Day_midnight.
    unfold MakeDay. lia.
Qed.

Lemma startOf_month_fixed (t : Moment) (n : Z) :
  0 <= n < daysInMonth t ->
  startOf month (add_days n (startOf month t)) = startOf month t.
Proof.
  intros H. destruct (month_day t n H) as (Y & M & _).
  rewrite (startOf_month_midnight (add_days _ _)), Y, M. reflexivity.
Qed.

(* ===================================================================== *)
(** * Formatting a date *)
(* ===================================================================== *)

Lemma digits_value_acc (d : Decimal.uint) (acc : positive) :
  digits_value (Zpos acc) (NilEmpty.string_of_uint d)
  = Some (Zpos (Pos.of_uint_acc d acc)).
Proof.
  revert acc. induction d as [|d IH|d IH|d IH|d IH|d IH|d IH|d IH|d IH|d IH|d IH];
    intros acc; cbn [NilEmpty.string_of_uint Pos.of_uint_acc];
    [reflexivity|..];
    match goal with
    | |- digits_value ?a (String ?c ?s) = _ =>
        let v := eval vm_compute in (Z.of_nat (nat_of_ascii c) - 48) in
        change (digits_value a (String c s)) with (digits_value (a * 10 + v) s)
    end;
    rewrite <- IH; f_equal; lia.
Qed.

Lemma digits_value_uint (d : Decimal.uint) :
  digits_value 0 (NilEmpty.string_of_uint d) = Some (Z.of_N (Pos.of_uint d)).
Proof.
  induction d as [|d IH|d IH|d IH|d IH|d IH|d IH|d IH|d IH|d IH|d IH];
    cbn [NilEmpty.string_of_uint Pos.of_uint];
    [reflexivity|exact IH|..];
    match goal with
    | |- digits_value ?a (String ?c ?s) = _ =>
        let v := eval vm_compute in (Z.of_nat (nat_of_ascii c) - 48) in
        change (digits_value a (String c s)) with (digits_value (a * 10 + v) s)
    end;
    apply digits_value_acc.
Qed.

(** Reading the decimal form of a number gives the number back. *)
Lemma digits_value_dec (n : Z) : 0 <= n -> digits_value 0 (dec n) = Some n.
Proof.
  intros H. unfold dec.
  assert (E : NilZero.string_of_uint (N.to_uint (Z.to_N n))
              = NilEmpty.string_of_uint (N.to_uint (Z.to_N n))).
  { destruct (Z.to_N n) as [|p]; [reflexivity|]. cbn [N.to_uint].
    pose proof (DecimalPos.Unsigned.to_uint_nonnil p) as NN.
    destruct (Pos.to_uint p); [congruence|reflexivity..]. }
  rewrite E, digits_value_uint. fold (N.of_uint (N.to_uint (Z.to_N n))).
  rewrite DecimalN.Unsigned.of_to. f_equal. lia.
Qed.

Lemma digits_value_zeros (k : nat) (s : string) :
  digits_value 0 (zeros k +:+ s) = digits_value 0 s.
Proof.
  induction k as [|k IH]; [reflexivity|].
  cbn [zeros]. rewrite append_cons. exact IH.
Qed.

Lemma zeroFill_nonneg (n : Z) (k : nat) :
  0 <= n -> digits_value 0 (zeroFill n k) = Some n.
Proof.
  intros H. unfold zeroFill. destruct (Z.leb_spec 0 n); [|lia].
  rewrite append_nil_l, digits_value_zeros, Z.abs_eq by lia.
  now apply digits_value_dec.
Qed.

Lemma zeroFill_neg (n : Z) (k : nat) :
  n < 0 -> zeroFill n k = "-" +:+ zeroFill (- n) k.
Proof.
  intros H. unfold zeroFill.
  destruct (Z.leb_spec 0 n); [lia|]. destruct (Z.leb_spec 0 (- n)); [|lia].
  rewrite append_nil_l, Z.abs_opp. reflexivity.
Qed.

Lemma zeroFill_inj (a b : Z) (k : nat) : zeroFill a k = zeroFill b k -> a = b.
Proof.
  intros E. destruct (Z.lt_ge_cases a 0) as [Ha|Ha], (Z.lt_ge_cases b 0) as [Hb|Hb].
  - rewrite (zeroFill_neg a), (zeroFill_neg b) in E by assumption.
    apply append_inv_head in E.
    pose proof (zeroFill_nonneg (- a) k ltac:(lia)) as Va.
    pose proof (zeroFill_nonneg (- b) k ltac:(lia)) as Vb.
    rewrite E in Va. rewrite Va in Vb. injection Vb. lia.
  - pose proof (zeroFill_nonneg b k Hb) as Vb.
    rewrite <- E, (zeroFill_neg a) in Vb by assumption. discriminate Vb.
  - pose proof (zeroFill_nonneg a k Ha) as Va.
    rewrite E, (zeroFill_neg b) in Va by assumption. discriminate Va.
  - pose proof (zeroFill_nonneg a k Ha) as Va.
    pose proof (zeroFill_nonneg b k Hb) as Vb.
    rewrite E in Va. rewrite Va in Vb. injection Vb. lia.
Qed.

(** Months and dates fill exactly two characters. *)
Lemma zeroFill_2_length (n : Z) :
  0 <= n <= 31 -> String.length (zeroFill n 2) = 2%nat.
Proof.
  intros H. rewrite <- (Z2Nat.id n) by lia.
  assert (L : (Z.to_nat n <= 31)%nat) by lia.
  revert L. generalize (Z.to_nat n). clear H. intros k.
  do 32 (destruct k as [|k]; [reflexivity|]). lia.
Qed.

Lemma format_tail_length (t : Moment) :
  String.length ("-" +:+ zeroFill (MonthFromTime t + 1) 2 +:+ "-"
                 +:+ zeroFill (DateFromTime t) 2) = 6%nat.
Proof.
  pose proof (civil_range t) as R. pose proof (daysInMonth_range t).
  rewrite !length_append, !zeroFill_2_length by lia. reflexivity.
Qed.

(** Two moments with the same [YYYY-MM-DD] form are on the same day. *)
Lemma format_inj (t1 t2 : Moment) :
  format_YYYY_MM_DD t1 = format_YYYY_MM_DD t2 -> Day t1 = Day t2.
Proof.
  unfold format_YYYY_MM_DD. intros E.
  apply append_eq_tail_length in E;
    [|now rewrite !format_tail_length].
  destruct E as [EY E]. apply append_inv_head in E.
  pose proof (civil_range t1). pose proof (civil_range t2).
  pose proof (daysInMonth_range t1). pose proof (daysInMonth_range t2).
  apply append_eq_tail_length in E;
    [|rewrite !length_append, !zeroFill_2_length by lia; reflexivity].
  destruct E as [EM E]. apply append_inv_head in E.
  apply zeroFill_inj in EY, EM, E.
  rewrite (Day_MakeDay t1), (Day_MakeDay t2), EY, E.
  replace (MonthFromTime t1) with (MonthFromTime t2) by lia. reflexivity.
Qed.

(* ===================================================================== *)
(** * Keys *)
(* ===================================================================== *)

Lemma keyFor_moment (now : Moment) (action : JsValue) (t : Moment) :
  keyFor now action (Some t)
  = or_default action "active" +:+ "-" +:+ format_YYYY_MM_DD t.
Proof. reflexivity. Qed.

(** Keys of one action for two moments are equal only on the same day. *)
Lemma keyFor_inj (now : Moment) (action : JsValue) (t1 t2 : Moment) :
  keyFor now action (Some t1) = keyFor now action (Some t2) -> Day t1 = Day t2.
Proof.
  rewrite !keyFor_moment. intros E.
  apply append_inv_head, append_inv_head in E. now apply format_inj.
Qed.

(** A key depends on the day of the moment only. *)
Lemma keyFor_day (now : Moment) (action : JsValue) (t : Moment) :
  keyFor now action (Some t) = keyFor now action (Some (midnight (Day t))).
Proof.
  rewrite !keyFor_moment.
  unfold format_YYYY_MM_DD, DateFromTime, MonthFromTime, InLeapYear, YearFromTime.
  now rewrite Day_midnight.
Qed.

Lemma zrange_length (lo : Z) (n : nat) : length (zrange lo n) = n.
Proof. unfold zrange. now rewrite length_map, length_seq. Qed.

Lemma zrange_succ (lo : Z) (n : nat) :
  zrange lo (S n) = lo :: zrange (lo + 1) n.
Proof.
  unfold zrange. rewrite <- cons_seq, <- seq_shift, map_cons, map_map.
  f_equal; [lia|]. apply map_ext. intros k. lia.
Qed.

Lemma zrange_In (lo : Z) (n : nat) (x : Z) :
  In x (zrange lo n) <-> lo <= x < lo + Z.of_nat n.
Proof.
  unfold zrange. rewrite in_map_iff. split.
  - intros (k & <- & Hk). apply in_seq in Hk. lia.
  - intros H. exists (Z.to_nat (x - lo)). split; [lia|]. apply in_seq. lia.
Qed.

Lemma zrange_NoDup (lo : Z) (n : nat) : List.NoDup (zrange lo n).
Proof.
  revert lo. induction n as [|n IH]; intros lo.
  - constructor.
  - rewrite zrange_succ. constructor; [|apply IH].
    rewrite zrange_In. lia.
Qed.

(** [_.times] with a closure that keeps an invariant of the object it
    mutates and whose value at index [i] is then [g i]. *)
Lemma times_from_map {S A : Type} (f : Z -> S -> A * S) (g : Z -> A)
      (P : S -> Prop) (n : nat) (lo : Z) (s : S) :
  (forall i s, lo <= i < lo + Z.of_nat n -> P s ->
               fst (f i s) = g i /\ P (snd (f i s))) ->
  P s ->
  fst (times_from lo n f s) = map g (zrange lo n).
Proof.
  revert lo s. induction n as [|n IH]; intros lo s H Hs; [reflexivity|].
  cbn [times_from]. rewrite zrange_succ.
  destruct (H lo s ltac:(lia) Hs) as [E1 P1].
  destruct (f lo s) as [a s1]. cbn [fst snd] in E1, P1.
  specialize (IH (lo + 1) s1).
  destruct (times_from (lo + 1) n f s1) as [rest s2]. cbn [fst map] in *.
  rewrite E1. f_equal. apply IH; [|exact P1].
  intros i s' Hi. apply H. lia.
Qed.

(** The week keys are the keys of the seven days from the start of the
    week. *)
Lemma weekKeys_days (now date : Moment) (action : JsValue) :
  fst (weekKeys now date action)
  = map (fun d => keyFor now action (Some (midnight d)))
        (zrange (Day (startOf week date)) 7).
Proof.
  unfold weekKeys, times. change (Z.to_nat 7) with 7%nat.
  rewrite (times_from_map _
             (fun n => keyFor now action (Some (add_days n (startOf week date))))
             (fun s => startOf week s = startOf week date)).
  - unfold zrange. rewrite !map_map. apply map_ext. intros k.
    rewrite keyFor_day, Day_add_days, Z.add_0_l. reflexivity.
  - intros i s Hi Hs. cbn [fst snd]. rewrite Hs. split; [reflexivity|].
    apply startOf_week_fixed. lia.
  - reflexivity.
Qed.

(** The month keys are the keys of the days of the month, from the first
    on. *)
Lemma monthKeys_days (now date : Moment) (action : JsValue) :
  fst (monthKeys now date action)
  = map (fun d => keyFor now action (Some (midnight d)))
        (zrange (Day (startOf month date)) (Z.to_nat (daysInMonth date))).
Proof.
  unfold monthKeys, times. pose proof (daysInMonth_range date) as R.
  rewrite (times_from_map _
             (fun n => keyFor now action (Some (add_days n (startOf month date))))
             (fun s => startOf month s = startOf month date)).
  - unfold zrange. rewrite !map_map. apply map_ext. intros k.
    rewrite keyFor_day, Day_add_days, Z.add_0_l. reflexivity.
  - intros i s Hi Hs. cbn [fst snd]. rewrite Hs. split; [reflexivity|].
    apply startOf_month_fixed. lia.
  - reflexivity.
Qed.

Lemma keys_NoDup (now : Moment) (action : JsValue) (lo : Z) (n : nat) :
  List.NoDup (map (fun d => keyFor now action (Some (midnight d))) (zrange lo n)).
Proof.
  apply Injective_map_NoDup; [|apply zrange_NoDup].
  intros d1 d2 E. apply keyFor_inj in E. now rewrite !Day_midnight in E.
Qed.

(** C4, as stated, fails at the empty action: the key is not
    ["" + "-" + date], it takes the default prefix. *)
Lemma C4_empty_action_counterexample :
  keyFor 0 (JsString "") (Some date_2024_01_01)
  <> "" +:+ "-" +:+ format_YYYY_MM_DD date_2024_01_01.
Proof. vm_compute. discriminate. Qed.

(** C4, amended: for every non-empty action [a] and every date [d],
    [keyFor a d] is [a], a hyphen and the [YYYY-MM-DD] form of [d] in UTC;
    when the action is omitted, null or the empty string the prefix is
    ["active"]; the key depends on the day of [d] only, and an absent date
    stands for the current day. *)
Theorem C4_keyFor_prefix_and_date (now d : Moment) :
  (forall a : string,
      a <> "" ->
      keyFor now (JsString a) (Some d) = a +:+ "-" +:+ format_YYYY_MM_DD d)
  /\ keyFor now JsUndefined (Some d) = "active" +:+ "-" +:+ format_YYYY_MM_DD d
  /\ keyFor now JsNull (Some d) = "active" +:+ "-" +:+ format_YYYY_MM_DD d
  /\ keyFor now (JsString "") (Some d) = "active" +:+ "-" +:+ format_YYYY_MM_DD d
  /\ format_YYYY_MM_DD d
     = zeroFill (YearFromTime d) 4 +:+ "-" +:+ zeroFill (MonthFromTime d + 1) 2
       +:+ "-" +:+ zeroFill (DateFromTime d) 2
  /\ (forall (action : JsValue) (d' : Moment),
        Day d = Day d' ->
        keyFor now action (Some d) = keyFor now action (Some d'))
  /\ (forall action : JsValue,
        keyFor now action None = keyFor now action (Some now)).
Proof.
  repeat split; try reflexivity.
  - intros a Ha. destruct a as [|c a]; [congruence | reflexivity].
  - intros action d' E. rewrite (keyFor_day now action d), (keyFor_day now action d').
    now rewrite E.
Qed.

Lemma C4_witness :
  keyFor 0 (JsString "login") (Some date_2024_01_01)
  = "login" +:+ "-" +:+ format_YYYY_MM_DD date_2024_01_01.
Proof.
  apply (proj1 (C4_keyFor_prefix_and_date 0 date_2024_01_01)). discriminate.
Defined.

Lemma month_civil_dates (date : Moment) (n : nat) :
  Z.of_nat n <= daysInMonth date ->
  map (fun d => (YearFromTime (midnight d), MonthFromTime (midnight d),
                 DateFromTime (midnight d)))
      (zrange (Day (startOf month date)) n)
  = map (fun k => (YearFromTime date, MonthFromTime date, k)) (zrange 1 n).
Proof.
  intros H. unfold zrange. rewrite !map_map. apply map_ext_in.
  intros k Hk. apply in_seq in Hk.
  destruct (month_day date (Z.of_nat k) ltac:(lia)) as (Y & M & D).
  rewrite startOf_month_midnight, add_days_midnight in Y, M, D.
  rewrite startOf_month_midnight, Day_midnight, Y, M, D.
  f_equal. lia.
Qed.

(** C5: [weekKeys] yields exactly 7 keys, those of the 7 consecutive days
    from the start of the week that holds the date, in that order and
    without a repeated key; [monthKeys] yields exactly [daysInMonth] keys,
    those of the days 1, 2, ... of the month of the date, in that order and
    without a repeated key. *)
Theorem C5_week_and_month_keys (now date : Moment) (action : JsValue) :
  let wk := fst (weekKeys now date action) in
  let w0 := Day (startOf week date) in
  let mk := fst (monthKeys now date action) in
  let m0 := Day (startOf month date) in
  let len := Z.to_nat (daysInMonth date) in
  length wk = 7%nat
  /\ wk = map (fun d => keyFor now action (Some (midnight d))) (zrange w0 7)
  /\ WeekDay (startOf week date) = dow
  /\ w0 <= Day date < w0 + 7
  /\ List.NoDup wk
  /\ Z.of_nat (length mk) = daysInMonth date
  /\ mk = map (fun d => keyFor now action (Some (midnight d))) (zrange m0 len)
  /\ map (fun d => (YearFromTime (midnight d), MonthFromTime (midnight d),
                    DateFromTime (midnight d))) (zrange m0 len)
     = map (fun k => (YearFromTime date, MonthFromTime date, k)) (zrange 1 len)
  /\ m0 <= Day date < m0 + daysInMonth date
  /\ List.NoDup mk.
Proof.
  intros wk w0 mk m0 len. subst wk mk.
  rewrite weekKeys_days, monthKeys_days.
  pose proof (daysInMonth_range date) as R.
  pose proof (startOf_week_spec date) as [W1 W2].
  repeat split; try solve [apply keys_NoDup | assumption | apply W2].
  - rewrite length_map, zrange_length. unfold len. lia.
  - apply month_civil_dates. unfold len. lia.
  - unfold m0. rewrite startOf_month_midnight, Day_midnight, (Day_MakeDay date).
    pose proof (civil_range date). unfold MakeDay. lia.
  - unfold m0. rewrite startOf_month_midnight, Day_midnight, (Day_MakeDay date).
    pose proof (civil_range date). unfold MakeDay. lia.
Qed.

(* ===================================================================== *)
(** * A buffer whose top bit is set *)
(* ===================================================================== *)

Lemma fold_be_shift (bs : list byte) (acc : Z) :
  fold_left (fun a x => a * 256 + byte_val x) bs acc
  = acc * 256 ^ Z.of_nat (length bs) + be_unsigned bs.
Proof.
  unfold be_unsigned. revert acc. induction bs as [|b bs IH]; intros acc.
  - cbn. lia.
  - cbn [fold_left length]. rewrite IH, (IH (0 * 256 + byte_val b)).
    rewrite Nat2Z.inj_succ, Z.pow_succ_r by lia. lia.
Qed.

Lemma be_unsigned_cons (b : byte) (bs : list byte) :
  be_unsigned (b :: bs) = byte_val b * 256 ^ Z.of_nat (length bs) + be_unsigned bs.
Proof.
  unfold be_unsigned at 1. cbn [fold_left]. rewrite fold_be_shift. lia.
Qed.

Lemma day_integer_top_bit (first : byte) (rest : list byte) :
  length rest = 7%nat -> 128 <= byte_val first ->
  day_integer (Some (first :: rest)) = be_unsigned (first :: rest) - 2 ^ 64
  /\ be_unsigned (first :: rest) - 2 ^ 64 < 0.
Proof.
  intros L H. unfold day_integer.
  rewrite to64Bits_long by (cbn [length]; lia).
  rewrite firstn_all2 by (cbn [length]; lia).
  pose proof (be_unsigned_range (first :: rest)) as R.
  cbn [length] in R. rewrite L in R.
  pose proof (be_unsigned_range rest) as R'.
  rewrite be_unsigned_cons, L in *. unfold signed64.
  change (256 ^ Z.of_nat 7) with 72057594037927936 in *.
  change (256 ^ Z.of_nat 8) with 18446744073709551616 in *.
  change (2 ^ 63) with 9223372036854775808.
  change (2 ^ 64) with 18446744073709551616.
  match goal with |- context [?u <? ?c] => destruct (Z.ltb_spec u c) end; lia.
Qed.

Lemma daily_one_key (now : Moment) (client : Client) (args : ReportArgs)
      (buffer : option Buffer) :
  get client (keyFor now (report_action args) (Some (report_date now args)))
  = ReplyOk buffer ->
  outcome (daily now client args) = CallbackOk (cardinality (day_integer buffer)).
Proof.
  intros H. unfold daily, activeUsers. cbn [outcome async_map]. rewrite H.
  rewrite binaryBigint_big_lor. cbn [map big_lor fold_right].
  now rewrite Z.lor_0_r.
Qed.

(** C10: an 8-byte buffer whose first bit is set is read as a negative
    integer, the 64-bit pattern minus 2^64, and the count reported is the
    number of 1-bits of the magnitude of the integer that is counted:
    of that integer for [daily]; for [weekly] and [monthly], of the bitwise
    or of the days' integers, which is then negative too, and which is that
    integer when the other days of the range add no bit. Eight 0xFF bytes
    give the count 1, while the pattern has 64 bits set. *)
Theorem C10_top_bit_set_counts_magnitude (first : byte) (rest : list byte) :
  length rest = 7%nat ->
  128 <= byte_val first ->
  let buffer := first :: rest in
  let v := be_unsigned buffer - 2 ^ 64 in
  to64Bits buffer = buffer
  /\ readBigInt64BE buffer = inr v
  /\ v < 0
  /\ (forall (now : Moment) (client : Client) (args : ReportArgs),
        get client (keyFor now (report_action args) (Some (report_date now args)))
        = ReplyOk (Some buffer) ->
        outcome (daily now client args) = CallbackOk (magnitude_bits v))
  /\ (forall (now : Moment) (client : Client) (args : ReportArgs)
             (results : list (option Buffer)),
        async_map (fst (weekKeys now (report_date now args) (report_action args)))
                  (get client) = ReplyOk results ->
        In (Some buffer) results ->
        big_lor (map day_integer results) < 0
        /\ outcome (weekly now client args)
           = CallbackOk (magnitude_bits (big_lor (map day_integer results)))
        /\ ((forall r, In r results -> r = Some buffer \/ day_integer r = 0) ->
            outcome (weekly now client args) = CallbackOk (magnitude_bits v)))
  /\ (forall (now : Moment) (client : Client) (args : ReportArgs)
             (results : list (option Buffer)),
        async_map (fst (monthKeys now (report_date now args) (report_action args)))
                  (get client) = ReplyOk results ->
        In (Some buffer) results ->
        big_lor (map day_integer results) < 0
        /\ outcome (monthly now client args)
           = CallbackOk (magnitude_bits (big_lor (map day_integer results)))
        /\ ((forall r, In r results -> r = Some buffer \/ day_integer r = 0) ->
            outcome (monthly now client args) = CallbackOk (magnitude_bits v)))
  /\ outcome (daily 0 (redisClient store_all_ones)
                (Report4 JsUndefined (Some date_2024_01_01)))
     = CallbackOk 1%nat
  /\ set_bits (Z.to_N (be_unsigned all_ones_64)) 64 = 64%nat.
Proof.
  intros L H buffer v. subst v.
  destruct (day_integer_top_bit first rest L H) as [E N].
  change (first :: rest) with buffer in E, N.
  assert (T : to64Bits buffer = buffer)
    by (apply to64Bits_long; unfold buffer; cbn [length]; lia).
  clearbody buffer.
  assert (Neg : forall results, In (Some buffer) results ->
                                big_lor (map day_integer results) < 0).
  { intros results HI. apply (big_lor_neg _ (day_integer (Some buffer))).
    - now apply in_map.
    - now rewrite E. }
  assert (Only : forall results,
             In (Some buffer) results ->
             (forall r, In r results -> r = Some buffer \/ day_integer r = 0) ->
             big_lor (map day_integer results) = be_unsigned buffer - 2 ^ 64).
  { intros results HI HA. rewrite <- E. apply big_lor_only.
    - now apply in_map.
    - intros x Hx. apply in_map_iff in Hx as (r & <- & Hr).
      destruct (HA r Hr) as [-> | Z0]; [now left | now right]. }
  split; [exact T|]. split; [|split; [exact N|]].
  { transitivity (readBigInt64BE (to64Bits buffer)); [now rewrite T|].
    rewrite readBigInt64BE_to64Bits. now rewrite E. }
  split; [|split; [|split; [|split]]].
  - intros now client args G. rewrite (daily_one_key _ _ _ _ G), E.
    apply f_equal, cardinality_magnitude.
  - intros now client args results HM HI. split; [now apply Neg|].
    unfold weekly. rewrite (activeUsers_ok _ _ _ HM).
    split; [apply f_equal, cardinality_magnitude|].
    intros HA. rewrite (Only results HI HA). apply f_equal, cardinality_magnitude.
  - intros now client args results HM HI. split; [now apply Neg|].
    unfold monthly. rewrite (activeUsers_ok _ _ _ HM).
    split; [apply f_equal, cardinality_magnitude|].
    intros HA. rewrite (Only results HI HA). apply f_equal, cardinality_magnitude.
  - vm_compute. reflexivity.
  - vm_compute. reflexivity.
Qed.

Lemma C10_witness :
  readBigInt64BE all_ones_64 = inr (be_unsigned all_ones_64 - 2 ^ 64)
  /\ be_unsigned all_ones_64 - 2 ^ 64 < 0.
Proof.
  pose proof (C10_top_bit_set_counts_magnitude xff [xff; xff; xff; xff; xff; xff; xff]
                ltac:(reflexivity) ltac:(vm_compute; discriminate)) as H.
  cbv zeta in H. destruct H as (_ & R & N & _). split; [exact R | exact N].
Defined.

(* ===================================================================== *)
(** * getUsers *)
(* ===================================================================== *)

Lemma requests_only (steps : list Step) :
  Forall is_request steps -> first_reject steps = None /\ pushed_ids steps = [].
Proof.
  induction 1 as [|s steps Hs _ IH]; [split; reflexivity|].
  destruct s; cbn in Hs; try contradiction. exact IH.
Qed.

Lemma nth_turn {A : Type} (r : nat) (t : list (list A)) :
  nth r t [] = [] \/ In (nth r t []) t.
Proof.
  destruct (Nat.lt_ge_cases r (length t)) as [H|H].
  - right. now apply nth_In.
  - left. now apply nth_overflow.
Qed.

(** What holds of every step of every per-key function holds of every step
    of the whole run. *)
Lemma promise_all_Forall (P : Step -> Prop) (tasks : list (list (list Step))) :
  (forall t turn, In t tasks -> In turn t -> Forall P turn) ->
  Forall P (promise_all tasks).
Proof.
  intros H. unfold promise_all. apply List.Forall_flat_map, List.Forall_forall.
  intros r _. apply List.Forall_flat_map, List.Forall_forall. intros t Ht.
  destruct (nth_turn r t) as [E | HI]; [rewrite E; constructor|].
  exact (H _ _ Ht HI).
Qed.

(** Every step of the whole run is a step of one of the per-key
    functions, and conversely. *)
Lemma promise_all_In (tasks : list (list (list Step))) (s : Step) :
  In s (promise_all tasks) <->
  exists t turn, In t tasks /\ In turn t /\ In s turn.
Proof.
  unfold promise_all. rewrite in_flat_map. split.
  - intros (r & _ & Hs). apply in_flat_map in Hs as (t & Ht & Hs).
    destruct (nth_turn r t) as [E | HI]; [rewrite E in Hs; destruct Hs|].
    eauto.
  - intros (t & turn & Ht & Hturn & Hs).
    destruct (In_nth t turn [] Hturn) as (r & Hr & E).
    exists r. split.
    + apply in_seq. split; [lia|]. cbn.
      assert (length t <= list_max (map (@length (list Step)) tasks))%nat.
      { assert (F : Forall (fun k => k <= list_max (map (@length (list Step)) tasks))%nat
                      (map (@length (list Step)) tasks))
          by (apply list_max_le; lia).
        rewrite List.Forall_forall in F. apply F. now apply in_map. }
      lia.
    + apply in_flat_map. exists t. split; [exact Ht|]. now rewrite E.
Qed.

Lemma first_reject_In (steps : list Step) (e : JsError) :
  first_reject steps = Some e -> In (Reject e) steps.
Proof.
  induction steps as [|s steps IH]; [discriminate|].
  destruct s; cbn [first_reject]; intros H.
  - right. auto.
  - right. auto.
  - injection H as ->. left. reflexivity.
Qed.

Lemma first_reject_some (steps : list Step) (e : JsError) :
  In (Reject e) steps -> exists e', first_reject steps = Some e'.
Proof.
  induction steps as [|s steps IH]; intros H; [destruct H|].
  destruct s; cbn [first_reject]; eauto;
    destruct H as [H|H]; try discriminate H; auto.
Qed.

(** A rejection inside the loop comes from a failed GETBIT. *)
Lemma getbit_turns_reject (client : Client) (item : string) (n : nat) (i : Z)
      (turn : list Step) (e : JsError) :
  In turn (getbit_turns client item i n) -> In (Reject e) turn ->
  exists offset, getbit client item offset = ReplyErr e.
Proof.
  revert i. induction n as [|n IH]; intros i Ht He; [destruct Ht|].
  cbn [getbit_turns] in Ht. destruct (getbit client item i) as [e'|user] eqn:G.
  - destruct Ht as [<-|[]]. destruct He as [[= ->]|[]]. eauto.
  - destruct n as [|n].
    + destruct Ht as [<-|[]]. destruct (user =? 1); cbn in He;
        intuition discriminate.
    + destruct Ht as [<-|Ht]; [|eauto].
      apply in_app_or in He as [He|He];
        [destruct (user =? 1)|]; cbn in He; intuition discriminate.
Qed.

(** A rejection of a per-key function is the error of a failed STRLEN or
    GETBIT on its key. *)
Lemma key_turns_reject (client : Client) (item : string) (turn : list Step)
      (e : JsError) :
  In turn (key_turns client item) -> In (Reject e) turn ->
  strlen client item = ReplyErr e
  \/ exists offset, getbit client item offset = ReplyErr e.
Proof.
  unfold key_turns. intros [<-|Ht] He.
  - cbn in He. intuition discriminate.
  - destruct (strlen client item) as [e'|len].
    + destruct Ht as [<-|[]]. destruct He as [[= ->]|[]]. now left.
    + right. destruct (len * 8 =? 0); [destruct Ht as [<-|[]]; destruct He|].
      destruct (0 <? len * 8); [|destruct Ht as [<-|[]]; destruct He].
      destruct Ht as [<-|Ht]; [cbn in He; intuition discriminate|].
      eapply getbit_turns_reject; eassumption.
Qed.

Lemma key_turns_failed_strlen (client : Client) (item : string) (e : JsError) :
  strlen client item = ReplyErr e ->
  key_turns client item = [[Request (ReqStrlen item)]; [Reject e]].
Proof. intros H. unfold key_turns. now rewrite H. Qed.

Lemma key_turns_vacant (client : Client) (item : string) :
  vacant client item -> key_turns client item = [[Request (ReqStrlen item)]; []].
Proof. intros [_ H]. unfold key_turns. now rewrite H. Qed.

(** The key list of a valid granularity is never empty. *)
Lemma users_keys_nonempty (now : Moment) (type action : JsValue) (date : Moment)
      (keys : list string) :
  users_keys now type action date = Some keys -> keys <> [].
Proof.
  unfold users_keys. pose proof (daysInMonth_range date) as R.
  destruct (strict_eq type "D");
    [|destruct (strict_eq type "W"); [|destruct (strict_eq type "M")]];
    intros H E; subst keys; try discriminate H;
    match type of H with
    | Some ?l = _ =>
        assert (L : l = []) by congruence;
        apply (f_equal (@length string)) in L
    end;
    rewrite ?weekKeys_days, ?monthKeys_days, ?length_map, ?zrange_length in L;
    cbn [length] in L; lia.
Qed.

(** [getUsers] on a non-empty key list. *)
Lemma getUsers_keys (now : Moment) (client : Client) (args : GetUsersArgs)
      (key0 : string) (more : list string) :
  users_keys now (users_type args) (users_action args) (users_date now args)
  = Some (key0 :: more) ->
  getUsers now client args
  = let keys := key0 :: more in
    let steps := promise_all (map (key_turns client) keys) in
    {| outcome :=
         match first_reject steps with
         | Some e => Rejected e
         | None => CallbackOk {| from := dateOfKey key0;
                                 to := dateOfKey (List.last keys key0);
                                 ids := pushed_ids steps |}
         end;
       requests := sent_requests steps |}.
Proof. intros H. unfold getUsers. now rewrite H. Qed.

(** [getUsers] never hands an error to its callback. *)
Lemma getUsers_no_callback_error (now : Moment) (client : Client)
      (args : GetUsersArgs) (e : JsError) :
  outcome (getUsers now client args) <> CallbackErr e.
Proof.
  unfold getUsers.
  destruct (users_keys now (users_type args) (users_action args)
              (users_date now args)) as [[|key0 more]|]; cbn [outcome];
    try discriminate.
  destruct (first_reject _); discriminate.
Qed.

(** When the STRLEN of one of the keys fails, [getUsers] ends in the
    rejection of its promise, with the error of a failed STRLEN or GETBIT
    on one of the keys; no list of ids reaches the callback. *)
Lemma getUsers_failed_fetch (now : Moment) (client : Client) (args : GetUsersArgs)
      (keys : list string) (key : string) (e : JsError) :
  users_keys now (users_type args) (users_action args) (users_date now args)
  = Some keys ->
  In key keys -> strlen client key = ReplyErr e ->
  exists e' key',
    outcome (getUsers now client args) = Rejected e'
    /\ In key' keys
    /\ (strlen client key' = ReplyErr e'
        \/ exists offset, getbit client key' offset = ReplyErr e').
Proof.
  intros HK HI HS. destruct keys as [|key0 more]; [destruct HI|].
  rewrite (getUsers_keys _ _ _ _ _ HK). cbn zeta. cbn [outcome].
  set (steps := promise_all (map (key_turns client) (key0 :: more))).
  assert (R : In (Reject e) steps).
  { apply promise_all_In. exists (key_turns client key), [Reject e].
    split; [now apply in_map|]. rewrite (key_turns_failed_strlen _ _ _ HS).
    split; [right; left; reflexivity | left; reflexivity]. }
  destruct (first_reject_some _ _ R) as [e' E]. rewrite E.
  apply first_reject_In, promise_all_In in E as (t & turn & Ht & Hturn & He).
  apply in_map_iff in Ht as (key' & <- & HI').
  exists e', key'. split; [reflexivity|]. split; [exact HI'|].
  eapply key_turns_reject; eassumption.
Qed.

(** When the fetch of one of the keys fails, [activeUsers] hands the error
    of the first such key to the callback, and no count. *)
Lemma activeUsers_failed_fetch (client : Client) (keys : list string) :
  (exists key e, In key keys /\ get client key = ReplyErr e) ->
  exists key e,
    In key keys /\ get client key = ReplyErr e
    /\ outcome (activeUsers client (ManyKeys keys)) = CallbackErr e.
Proof.
  intros H. apply async_map_failure in H as (pre & key & post & e & -> & G & _ & M).
  exists key, e. split; [apply in_elt|]. split; [exact G|].
  unfold activeUsers. cbn [outcome]. now rewrite M.
Qed.

(** C6, as stated, fails: [from] and [to] are not ["01-01-2024"]. *)
Lemma C6_from_to_counterexample :
  outcome (getUsers 0 (redisClient store_2024_01_01) scenario_call)
  <> CallbackOk {| from := "01-01-2024"; to := "01-01-2024";
                   ids := [ {| id := 0; date := "2024-01-01" |};
                            {| id := 2; date := "2024-01-01" |} ] |}.
Proof. vm_compute. intros H. discriminate H. Qed.

(** C6, amended: with the one-byte bitset 0b10100000 under
    ["active-2024-01-01"], [getUsers('D', undefined, "2024-01-01")] hands
    its callback [from] and [to] equal to ["2024-01-01"], the text of the
    key after the action, and the ids 0 and 2, the set bit positions in
    ascending order, each with the date ["2024-01-01"]; it reads the length
    of the bitset and then its 8 bits, one command each. *)
Theorem C6_getUsers_daily_scenario (now : Moment) :
  getUsers now (redisClient store_2024_01_01) scenario_call
  = {| outcome :=
         CallbackOk {| from := "2024-01-01"; to := "2024-01-01";
                       ids := [ {| id := 0; date := "2024-01-01" |};
                                {| id := 2; date := "2024-01-01" |} ] |};
       requests :=
         ReqStrlen "active-2024-01-01"
         :: map (ReqGetbit "active-2024-01-01") (zrange 0 8) |}.
Proof. vm_compute. reflexivity. Qed.

Lemma vacant_results (client : Client) (keys : list string) :
  Forall (vacant client) keys ->
  exists results,
    async_map keys (get client) = ReplyOk results
    /\ big_lor (map day_integer results) = 0.
Proof.
  induction 1 as [|key keys [G _] _ (results & M & Z0)].
  - exists []. split; reflexivity.
  - cbn [async_map]. rewrite M.
    destruct G as [-> | ->]; eexists; (split; [reflexivity|]);
      cbn [map big_lor fold_right]; fold (big_lor (map day_integer results));
      rewrite Z0; reflexivity.
Qed.

Lemma activeUsers_vacant (client : Client) (keys : list string) :
  Forall (vacant client) keys ->
  outcome (activeUsers client (ManyKeys keys)) = CallbackOk 0%nat.
Proof.
  intros H. destruct (vacant_results client keys H) as (results & M & Z0).
  now rewrite (activeUsers_ok _ _ _ M), Z0.
Qed.

Lemma getUsers_vacant (now : Moment) (client : Client) (args : GetUsersArgs)
      (key0 : string) (more : list string) :
  users_keys now (users_type args) (users_action args) (users_date now args)
  = Some (key0 :: more) ->
  Forall (vacant client) (key0 :: more) ->
  getUsers now client args
  = {| outcome := CallbackOk {| from := dateOfKey key0;
                                to := dateOfKey (List.last (key0 :: more) key0);
                                ids := [] |};
       requests := sent_requests
                     (promise_all (map (key_turns client) (key0 :: more))) |}.
Proof.
  intros HK HV. rewrite (getUsers_keys _ _ _ _ _ HK). cbn zeta.
  assert (F : Forall is_request
                (promise_all (map (key_turns client) (key0 :: more)))).
  { apply promise_all_Forall. intros t turn Ht Hturn.
    apply in_map_iff in Ht as (key & <- & HI).
    rewrite List.Forall_forall in HV.
    rewrite (key_turns_vacant _ _ (HV _ HI)) in Hturn.
    destruct Hturn as [<-|[<-|[]]]; repeat constructor. }
  destruct (requests_only _ F) as [-> ->]. reflexivity.
Qed.

Lemma day_integer_vacant (client : Client) (key : string) :
  vacant client key ->
  exists r, get client key = ReplyOk r /\ day_integer r = 0.
Proof.
  intros [[G|G] _]; eexists; (split; [exact G | reflexivity]).
Qed.

(** A key with no bitset, or an empty one, adds nothing to the count and
    does not make it fail. *)
Lemma activeUsers_skip_vacant (client : Client) (pre post : list string)
      (key : string) :
  vacant client key ->
  outcome (activeUsers client (ManyKeys (pre ++ key :: post)))
  = outcome (activeUsers client (ManyKeys (pre ++ post))).
Proof.
  intros V. destruct (day_integer_vacant client key V) as (r & G & Z0).
  unfold activeUsers. cbn [outcome]. rewrite !async_map_app.
  destruct (async_map pre (get client)) as [e|b1]; [reflexivity|].
  cbn [async_map]. rewrite G.
  destruct (async_map post (get client)) as [e|b2]; [reflexivity|].
  rewrite !binaryBigint_big_lor, !map_app. cbn [map].
  rewrite !big_lor_app. cbn [big_lor fold_right]. fold (big_lor (map day_integer b2)).
  now rewrite Z0, Z.lor_0_l.
Qed.

(** A rejection of [getUsers] comes from a key that is not vacant: it is
    the error of a failed STRLEN or GETBIT on that key. *)
Lemma getUsers_rejection_source (now : Moment) (client : Client)
      (args : GetUsersArgs) (keys : list string) (e : JsError) :
  users_keys now (users_type args) (users_action args) (users_date now args)
  = Some keys ->
  outcome (getUsers now client args) = Rejected e ->
  exists key,
    In key keys /\ ~ vacant client key
    /\ (strlen client key = ReplyErr e
        \/ exists offset, getbit client key offset = ReplyErr e).
Proof.
  intros HK HO. pose proof (users_keys_nonempty _ _ _ _ _ HK) as NE.
  destruct keys as [|key0 more]; [congruence|].
  rewrite (getUsers_keys _ _ _ _ _ HK) in HO. cbn zeta in HO. cbn [outcome] in HO.
  destruct (first_reject _) as [e'|] eqn:F; [|discriminate HO].
  assert (e' = e) by congruence. subst e'.
  apply first_reject_In, promise_all_In in F as (t & turn & Ht & Hturn & He).
  apply in_map_iff in Ht as (key & <- & HI).
  exists key. split; [exact HI|]. split.
  - intros V. rewrite (key_turns_vacant _ _ V) in Hturn.
    destruct Hturn as [<-|[<-|[]]]; cbn in He; intuition discriminate.
  - eapply key_turns_reject; eassumption.
Qed.

(** C8, at a store on which every command on the queried key fails:
    [daily] hands the error to its callback; [getUsers] never calls its
    callback, the error leaves it as the rejection of the promise it
    returns. *)
Theorem C8_failed_fetch_daily_and_getUsers (now : Moment) :
  outcome (daily now broken_client (Report4 JsUndefined (Some date_2024_01_01)))
  = CallbackErr (ClientError "ECONNRESET")
  /\ outcome (getUsers now broken_client scenario_call)
     = Rejected (ClientError "ECONNRESET")
  /\ (forall e, outcome (getUsers now broken_client scenario_call)
                <> CallbackErr e).
Proof.
  split; [vm_compute; reflexivity|]. split; [vm_compute; reflexivity|].
  intros e. apply getUsers_no_callback_error.
Qed.

(** C9, as stated, fails: with the granularity ['X'] no error reaches the
    callback; the call ends in a [TypeError] thrown while reading
    [keys[0]]. *)
Lemma C9_invalid_granularity_counterexample :
  outcome (getUsers 0 (redisClient store_2024_01_01) (GetUsers3 (JsString "X")))
  = Rejected (TypeError "Cannot read properties of undefined (reading '0')")
  /\ ~ (exists e, outcome (getUsers 0 (redisClient store_2024_01_01)
                             (GetUsers3 (JsString "X")))
                  = CallbackErr e).
Proof.
  split; [reflexivity|]. intros [e H]. discriminate H.
Qed.

(** C9, amended: for every call of [getUsers] with a granularity other than
    ['D'], ['W'] and ['M'], no key is derived and no partial work is done:
    whatever the client, no command is sent to the store, and no result is
    handed to the callback. *)
Theorem C9_invalid_granularity (now : Moment) (client : Client) (args : GetUsersArgs) :
  strict_eq (users_type args) "D" = false ->
  strict_eq (users_type args) "W" = false ->
  strict_eq (users_type args) "M" = false ->
  users_keys now (users_type args) (users_action args) (users_date now args) = None
  /\ requests (getUsers now client args) = []
  /\ (forall r, outcome (getUsers now client args) <> CallbackOk r).
Proof.
  intros D W M.
  assert (K : users_keys now (users_type args) (users_action args)
                (users_date now args) = None)
    by (unfold users_keys; now rewrite D, W, M).
  split; [exact K|]. unfold getUsers. rewrite K.
  split; [reflexivity | discriminate].
Qed.

Lemma C9_witness :
  users_keys 0 (users_type (GetUsers4 (JsString "Y") JsNull))
    (users_action (GetUsers4 (JsString "Y") JsNull))
    (users_date 0 (GetUsers4 (JsString "Y") JsNull)) = None
  /\ requests (getUsers 0 (redisClient store_2024_01_01)
                 (GetUsers4 (JsString "Y") JsNull)) = []
  /\ (forall r, outcome (getUsers 0 (redisClient store_2024_01_01)
                           (GetUsers4 (JsString "Y") JsNull)) <> CallbackOk r).
Proof.
  apply (C9_invalid_granularity 0 (redisClient store_2024_01_01)
           (GetUsers4 (JsString "Y") JsNull)); reflexivity.
Defined.

(* ===================================================================== *)
(** * The date text of a key *)
(* ===================================================================== *)

Lemma split_from_no_dash (s cur rest : string) :
  no_dash s = true ->
  split_from "-" cur (s +:+ rest) = split_from "-" (cur +:+ s) rest.
Proof.
  revert cur. induction s as [|c s IH]; intros cur H.
  - now rewrite append_nil_l, append_nil_r.
  - cbn [no_dash] in H. apply andb_true_iff in H as [Hc Hs].
    rewrite append_cons. cbn [split_from].
    destruct (Ascii.eqb c "-"); [discriminate Hc|].
    rewrite IH by exact Hs. now rewrite append_assoc.
Qed.

Lemma split_from_piece (s cur rest : string) :
  no_dash s = true ->
  split_from "-" cur (s +:+ "-" +:+ rest)
  = (cur +:+ s) :: split_from "-" "" rest.
Proof.
  intros H. rewrite split_from_no_dash by exact H. reflexivity.
Qed.

Lemma split_from_last (s cur : string) :
  no_dash s = true -> split_from "-" cur s = [cur +:+ s].
Proof.
  intros H. rewrite <- (append_nil_r s) at 1.
  rewrite split_from_no_dash by exact H. reflexivity.
Qed.

Lemma digits_no_dash (s : string) (acc v : Z) :
  digits_value acc s = Some v -> no_dash s = true.
Proof.
  revert acc. induction s as [|c s IH]; intros acc H; [reflexivity|].
  cbn [digits_value no_dash] in *.
  destruct (Ascii.eqb_spec c "-") as [->|_]; [discriminate H|].
  destruct ((48 <=? Z.of_nat (nat_of_ascii c)) && (Z.of_nat (nat_of_ascii c) <=? 57));
    [|discriminate H].
  cbn. eauto.
Qed.

(** For an action without a hyphen and a year that is not negative, the
    date text [getUsers] cuts out of a key is the date the key was made
    from. *)
Lemma dateOfKey_keyFor (now : Moment) (action : JsValue) (t : Moment) :
  no_dash (or_default action "active") = true -> 0 <= YearFromTime t ->
  dateOfKey (keyFor now action (Some t)) = format_YYYY_MM_DD t.
Proof.
  intros Ha Hy. pose proof (civil_range t) as R.
  pose proof (daysInMonth_range t) as R'.
  rewrite keyFor_moment. unfold dateOfKey, split, format_YYYY_MM_DD.
  rewrite split_from_piece by exact Ha.
  rewrite split_from_piece
    by (eapply digits_no_dash, zeroFill_nonneg; exact Hy).
  rewrite split_from_piece
    by (eapply digits_no_dash, zeroFill_nonneg; lia).
  rewrite split_from_last
    by (eapply digits_no_dash, zeroFill_nonneg; lia).
  reflexivity.
Qed.

(** With a hyphen in the action the pieces are counted from the wrong
    place. *)
Example dateOfKey_hyphenated_action :
  keyFor 0 (JsString "sign-up") (Some date_2024_01_01) = "sign-up-2024-01-01"
  /\ dateOfKey "sign-up-2024-01-01" = "up-2024-01".
Proof. split; vm_compute; reflexivity. Qed.

(* ===================================================================== *)
(** * Further properties: normalization and the binary string *)
(* ===================================================================== *)

Lemma to64Bits_exact_length (buffer : Buffer) :
  length (to64Bits buffer) = Nat.max 8 (length buffer).
Proof.
  destruct (Nat.lt_ge_cases (length buffer) 8) as [H|H].
  - rewrite to64Bits_short by exact H. unfold Buffer_alloc.
    rewrite length_app, repeat_length. lia.
  - rewrite to64Bits_long by exact H. lia.
Qed.

Lemma readBigInt64BE_short (buffer : Buffer) :
  (length buffer < 8)%nat ->
  readBigInt64BE buffer = inl (RangeError "ERR_BUFFER_OUT_OF_BOUNDS").
Proof.
  intros H.
  destruct buffer as [|b0 [|b1 [|b2 [|b3 [|b4 [|b5 [|b6 [|b7 rest]]]]]]]];
    try reflexivity.
  cbn [length] in H. lia.
Qed.

(** X1: [to64Bits] returns a buffer of [max 8 length] bytes that ends with
    the bytes given, all bytes before them zero; applying it twice changes
    nothing more; [readBigInt64BE], which throws the RangeError
    ERR_BUFFER_OUT_OF_BOUNDS on every buffer of fewer than 8 bytes, never
    fails after it. *)
Theorem X1_to64Bits_makes_the_read_safe (buffer : Buffer) :
  length (to64Bits buffer) = Nat.max 8 (length buffer)
  /\ to64Bits buffer = Buffer_alloc (Nat.max 8 (length buffer) - length buffer) ++ buffer
  /\ to64Bits (to64Bits buffer) = to64Bits buffer
  /\ (exists z, readBigInt64BE (to64Bits buffer) = inr z)
  /\ ((length buffer < 8)%nat ->
      readBigInt64BE buffer = inl (RangeError "ERR_BUFFER_OUT_OF_BOUNDS")).
Proof.
  split; [apply to64Bits_exact_length|]. split; [|split; [|split]].
  - destruct (Nat.lt_ge_cases (length buffer) 8) as [H|H].
    + rewrite to64Bits_short by exact H. do 2 f_equal. lia.
    + rewrite to64Bits_long by exact H.
      replace (Nat.max 8 (length buffer) - length buffer)%nat with 0%nat by lia.
      reflexivity.
  - apply to64Bits_long, to64Bits_length.
  - eexists. apply readBigInt64BE_to64Bits.
  - apply readBigInt64BE_short.
Qed.

Lemma binary_value_app (s t : string) (acc : Z) :
  binary_value acc (s +:+ t)
  = match binary_value acc s with
    | Some v => binary_value v t
    | None => None
    end.
Proof.
  revert acc. induction s as [|c s IH]; intros acc; [reflexivity|].
  rewrite append_cons. cbn [binary_value].
  destruct (Ascii.eqb c "0"); [apply IH|].
  destruct (Ascii.eqb c "1"); [apply IH | reflexivity].
Qed.

Lemma binary_value_pos (p : positive) :
  binary_value 0 (pos_toString2 p) = Some (Zpos p).
Proof.
  induction p as [q IH|q IH|]; cbn [pos_toString2];
    try (rewrite binary_value_app, IH); reflexivity.
Qed.

(** Reading back the binary string of a non-negative integer gives the
    integer; the string of a negative one is not a string of digits. *)
Lemma binary_value_toString2 (z : Z) :
  binary_value 0 (BigInt_toString2 z) = if 0 <=? z then Some z else None.
Proof.
  destruct z as [|p|p]; [reflexivity | apply binary_value_pos | reflexivity].
Qed.

Lemma toBinaryString_day_integer (buffer : Buffer) :
  toBinaryString buffer = inr (BigInt_toString2 (day_integer (Some buffer))).
Proof. unfold toBinaryString. now rewrite readBigInt64BE_to64Bits. Qed.

(** X2: [toBinaryString] never fails. For a buffer of fewer than 8 bytes its
    string, read back as a binary number, is the big-endian unsigned value
    of the buffer, so leading zero bytes leave the string as it is. *)
Theorem X2_toBinaryString_round_trip (buffer : Buffer) :
  (length buffer < 8)%nat ->
  exists s,
    toBinaryString buffer = inr s
    /\ binary_value 0 s = Some (be_unsigned buffer)
    /\ forall k, (k + length buffer < 8)%nat ->
                 toBinaryString (Buffer_alloc k ++ buffer) = inr s.
Proof.
  intros H. eexists. split; [apply toBinaryString_day_integer|]. split.
  - rewrite binary_value_toString2, day_integer_short by exact H.
    pose proof (be_unsigned_range buffer) as R.
    destruct (Z.leb_spec 0 (be_unsigned buffer)); [reflexivity | lia].
  - intros k Hk. rewrite toBinaryString_day_integer.
    rewrite !day_integer_short, be_unsigned_pad; [reflexivity | exact H |].
    unfold Buffer_alloc. rewrite length_app, repeat_length. exact Hk.
Qed.

Lemma X2_witness :
  exists s,
    toBinaryString [xa0] = inr s
    /\ binary_value 0 s = Some (be_unsigned [xa0])
    /\ forall k, (k + length [xa0] < 8)%nat ->
                 toBinaryString (Buffer_alloc k ++ [xa0]) = inr s.
Proof. apply (X2_toBinaryString_round_trip [xa0]). cbn. lia. Defined.

Lemma day_integer_first_eight (head extra : list byte) :
  length head = 8%nat ->
  day_integer (Some (head ++ extra)) = day_integer (Some head).
Proof.
  intros H. unfold day_integer.
  rewrite !to64Bits_long by (rewrite ?length_app; lia).
  rewrite firstn_app, H, Nat.sub_diag, firstn_O, app_nil_r. reflexivity.
Qed.

(** X3: of a bitset longer than 8 bytes only the first 8 bytes are read:
    what [daily] reports for it is what it reports for its first 8 bytes,
    whatever the bits of the users 64 and up. *)
Theorem X3_bytes_past_the_eighth_are_ignored
        (now : Moment) (client : Client) (args : ReportArgs)
        (head extra : list byte) :
  length head = 8%nat ->
  get client (keyFor now (report_action args) (Some (report_date now args)))
  = ReplyOk (Some (head ++ extra)) ->
  toBinaryString (head ++ extra) = toBinaryString head
  /\ outcome (daily now client args)
     = CallbackOk (cardinality (day_integer (Some head))).
Proof.
  intros H G. split.
  - now rewrite !toBinaryString_day_integer, day_integer_first_eight.
  - now rewrite (daily_one_key _ _ _ _ G), day_integer_first_eight.
Qed.

Lemma X3_witness :
  toBinaryString ([x00; x00; x00; x00; x00; x00; x00; x01] ++ [xff])
  = toBinaryString [x00; x00; x00; x00; x00; x00; x00; x01]
  /\ outcome (daily 0 (redisClient
                         {[ "active-2024-01-01"
                            := [x00; x00; x00; x00; x00; x00; x00; x01; xff] ]})
                (Report4 JsUndefined (Some date_2024_01_01)))
     = CallbackOk (cardinality
                     (day_integer (Some [x00; x00; x00; x00; x00; x00; x00; x01]))).
Proof.
  apply (X3_bytes_past_the_eighth_are_ignored 0 _
           (Report4 JsUndefined (Some date_2024_01_01))
           [x00; x00; x00; x00; x00; x00; x00; x01] [xff]);
    [reflexivity | vm_compute; reflexivity].
Defined.

(* ===================================================================== *)
(** * Further properties: where a user's bit lands *)
(* ===================================================================== *)

Lemma testbit_high_low (b r k j : Z) :
  0 <= k -> 0 <= r < 2 ^ k -> 0 <= j ->
  Z.testbit (b * 2 ^ k + r) j
  = if j <? k then Z.testbit r j else Z.testbit b (j - k).
Proof.
  intros Hk Hr Hj. assert (P : 0 < 2 ^ k) by (apply Z.pow_pos_nonneg; lia).
  destruct (Z.ltb_spec j k) as [L|L].
  - rewrite <- (Z.mod_pow2_bits_low (b * 2 ^ k + r) k j) by exact L.
    rewrite Z.add_comm, Z.mod_add, Z.mod_small by lia. reflexivity.
  - replace j with ((j - k) + k) at 1 by lia.
    rewrite <- Z.div_pow2_bits by lia.
    rewrite Z.div_add_l, Z.div_small by lia. now rewrite Z.add_0_r.
Qed.

Lemma bit_at_head (b : byte) (bs : list byte) (i : Z) :
  0 <= i < 8 ->
  bit_at (b :: bs) i = if Z.testbit (byte_val b) (7 - i) then 1 else 0.
Proof.
  intros H. unfold bit_at. destruct (Z.ltb_spec i 0); [lia|].
  rewrite Z.div_small, Z.mod_small by lia. reflexivity.
Qed.

Lemma bit_at_tail (b : byte) (bs : list byte) (i : Z) :
  8 <= i -> bit_at (b :: bs) i = bit_at bs (i - 8).
Proof.
  intros H. unfold bit_at.
  destruct (Z.ltb_spec i 0); [lia|]. destruct (Z.ltb_spec (i - 8) 0); [lia|].
  replace (Z.to_nat (i / 8)) with (S (Z.to_nat ((i - 8) / 8)))
    by (Z.div_mod_to_equations; lia).
  replace ((i - 8) mod 8) with (i mod 8) by (Z.div_mod_to_equations; lia).
  reflexivity.
Qed.

(** Bit [i] of a byte string, counted from its first bit, is bit
    [8 * length - 1 - i] of its big-endian value. *)
Lemma be_unsigned_testbit (bs : list byte) (i : Z) :
  0 <= i < 8 * Z.of_nat (length bs) ->
  Z.testbit (be_unsigned bs) (8 * Z.of_nat (length bs) - 1 - i)
  = (bit_at bs i =? 1).
Proof.
  revert i. induction bs as [|b bs IH]; intros i H; [cbn [length] in H; lia|].
  rewrite be_unsigned_cons. cbn [length] in *. rewrite Nat2Z.inj_succ in *.
  pose proof (be_unsigned_range bs) as R.
  replace (256 ^ Z.of_nat (length bs)) with (2 ^ (8 * Z.of_nat (length bs))) in *
    by (rewrite Z.pow_mul_r by lia; reflexivity).
  rewrite testbit_high_low by lia.
  destruct (Z.ltb_spec (8 * Z.succ (Z.of_nat (length bs)) - 1 - i)
                       (8 * Z.of_nat (length bs))) as [L|L].
  - rewrite bit_at_tail by lia.
    replace (8 * Z.succ (Z.of_nat (length bs)) - 1 - i)
      with (8 * Z.of_nat (length bs) - 1 - (i - 8)) by lia.
    apply IH. lia.
  - rewrite bit_at_head by lia.
    replace (8 * Z.succ (Z.of_nat (length bs)) - 1 - i - 8 * Z.of_nat (length bs))
      with (7 - i) by lia.
    destruct (Z.testbit (byte_val b) (7 - i)); reflexivity.
Qed.

(** X4: in the integer counted for a bitset of [n] bytes, [n] below 8, user
    [i] is bit [8 * n - 1 - i]: after the left padding the place of a user
    depends on the length of the bitset. One more zero byte at the end, which
    adds no user, shifts every user by 8 bits. *)
Theorem X4_user_bit_position (buffer : Buffer) (i : Z) :
  (length buffer < 8)%nat ->
  0 <= i < 8 * Z.of_nat (length buffer) ->
  Z.testbit (day_integer (Some buffer)) (8 * Z.of_nat (length buffer) - 1 - i)
  = (bit_at buffer i =? 1)
  /\ ((length buffer < 7)%nat ->
      day_integer (Some (buffer ++ [x00])) = 256 * day_integer (Some buffer)
      /\ bit_at (buffer ++ [x00]) i = bit_at buffer i).
Proof.
  intros H Hi. split.
  - rewrite day_integer_short by exact H. now apply be_unsigned_testbit.
  - intros H7. split.
    + rewrite !day_integer_short by (rewrite ?length_app; cbn [length]; lia).
      rewrite be_unsigned_app. cbn [fold_left]. change (byte_val x00) with 0. lia.
    + unfold bit_at. destruct (Z.ltb_spec i 0); [lia|].
      rewrite nth_error_app1; [reflexivity|].
      assert (i / 8 < Z.of_nat (length buffer))
        by (Z.div_mod_to_equations; lia).
      lia.
Qed.

Lemma X4_witness :
  Z.testbit (day_integer (Some [xa0])) (8 * Z.of_nat (length [xa0]) - 1 - 2)
  = (bit_at [xa0] 2 =? 1)
  /\ ((length [xa0] < 7)%nat ->
      day_integer (Some ([xa0] ++ [x00])) = 256 * day_integer (Some [xa0])
      /\ bit_at ([xa0] ++ [x00]) 2 = bit_at [xa0] 2).
Proof. apply (X4_user_bit_position [xa0] 2); cbn; lia. Defined.

(** The same user on two days, in bitsets of different lengths: the weekly
    count is 2. *)
Example weekly_two_lengths :
  outcome (weekly 0 (redisClient (<[ "active-2024-01-02" := [x80; x00] ]>
                                   {[ "active-2024-01-01" := [x80] ]}))
             (Report4 JsUndefined (Some date_2024_01_01)))
  = CallbackOk 2%nat.
Proof. vm_compute. reflexivity. Qed.

(* ===================================================================== *)
(** * Further properties: the count and the bits of the bitset *)
(* ===================================================================== *)

Lemma set_bits_wide (w : nat) (n : N) :
  (n < 2 ^ N.of_nat w)%N ->
  set_bits n w = match n with N0 => 0%nat | Npos p => popcount p end.
Proof.
  revert n. induction w as [|w IH]; intros n H.
  - cbn in H. destruct n; [reflexivity | lia].
  - rewrite Nnat.Nat2N.inj_succ, N.pow_succ_r' in H.
    rewrite set_bits_succ.
    destruct n as [|[q|q|]]; cbn [N.testbit N.div2 Pos.testbit popcount].
    + now rewrite set_bits_zero.
    + rewrite (IH (Npos q)) by lia. reflexivity.
    + rewrite (IH (Npos q)) by lia. reflexivity.
    + now rewrite set_bits_zero.
Qed.

(** The count of a non-negative integer below [2 ^ w] is the number of its
    bits set below [w]. *)
Lemma cardinality_width (w : nat) (z : Z) :
  0 <= z < 2 ^ Z.of_nat w ->
  cardinality z
  = length (List.filter (fun j => Z.testbit z (Z.of_nat j)) (seq 0 w)).
Proof.
  intros H. rewrite <- (Z2N.id z) by lia.
  assert (L : (Z.to_N z < 2 ^ N.of_nat w)%N).
  { apply N2Z.inj_lt. rewrite N2Z.inj_pow, Z2N.id, nat_N_Z by lia. lia. }
  transitivity (set_bits (Z.to_N z) w).
  - rewrite (set_bits_wide w _ L). destruct (Z.to_N z) as [|p]; [reflexivity|].
    apply cardinality_pos.
  - unfold set_bits. f_equal. apply filter_ext. intros j.
    rewrite <- nat_N_Z. now rewrite Z.testbit_of_N.
Qed.

Lemma filter_map_length {A B : Type} (g : B -> bool) (h : A -> B) (l : list A) :
  length (List.filter g (map h l)) = length (List.filter (fun x => g (h x)) l).
Proof.
  induction l as [|x l IH]; [reflexivity|]. cbn [map List.filter].
  destruct (g (h x)); cbn [length]; now rewrite IH.
Qed.

Lemma filter_length_rev (f : nat -> bool) (w : nat) :
  length (List.filter f (seq 0 w))
  = length (List.filter (fun i => f (w - 1 - i)%nat) (seq 0 w)).
Proof.
  induction w as [|w IH]; [reflexivity|].
  rewrite seq_S at 1. rewrite List.filter_app, length_app, IH.
  rewrite <- cons_seq, <- seq_shift. cbn [Nat.add List.filter].
  replace (S w - 1 - 0)%nat with w by lia.
  assert (E : length (List.filter (fun i => f (S w - 1 - i)%nat) (map S (seq 0 w)))
              = length (List.filter (fun i => f (w - 1 - i)%nat) (seq 0 w))).
  { rewrite filter_map_length. f_equal. apply filter_ext. intros i.
    f_equal. lia. }
  destruct (f w); cbn [length]; rewrite E; lia.
Qed.

Lemma filter_zrange (p : Z -> bool) (n : nat) :
  List.filter p (zrange 0 n)
  = map Z.of_nat (List.filter (fun k => p (Z.of_nat k)) (seq 0 n)).
Proof.
  unfold zrange. induction (seq 0 n) as [|k l IH]; [reflexivity|].
  cbn [map List.filter]. rewrite Z.add_0_l.
  destruct (p (Z.of_nat k)); cbn [map]; rewrite IH, ?Z.add_0_l; reflexivity.
Qed.

(** The count of the big-endian value of a byte string is the number of
    bits set in the string. *)
Lemma cardinality_be_unsigned (bs : list byte) :
  cardinality (be_unsigned bs)
  = length (List.filter (fun i => bit_at bs i =? 1)
                        (zrange 0 (8 * length bs))).
Proof.
  pose proof (be_unsigned_range bs) as R.
  rewrite (cardinality_width (8 * length bs)).
  2:{ rewrite Nat2Z.inj_mul. change (Z.of_nat 8) with 8.
      rewrite Z.pow_mul_r by lia. exact R. }
  rewrite filter_length_rev, filter_zrange, length_map. f_equal.
  apply filter_ext_in. intros k Hk. apply in_seq in Hk.
  rewrite <- (be_unsigned_testbit bs (Z.of_nat k)) by lia. f_equal. lia.
Qed.

(* ===================================================================== *)
(** * Further properties: what getUsers enumerates *)
(* ===================================================================== *)

Lemma pushed_ids_app (a b : list Step) :
  pushed_ids (a ++ b) = pushed_ids a ++ pushed_ids b.
Proof.
  induction a as [|s a IH]; [reflexivity|].
  destruct s; cbn [app pushed_ids]; rewrite IH; reflexivity.
Qed.

Lemma sent_requests_app (a b : list Step) :
  sent_requests (a ++ b) = sent_requests a ++ sent_requests b.
Proof.
  induction a as [|s a IH]; [reflexivity|].
  destruct s; cbn [app sent_requests]; rewrite IH; reflexivity.
Qed.

Lemma first_reject_app (a b : list Step) :
  first_reject (a ++ b)
  = match first_reject a with
    | Some e => Some e
    | None => first_reject b
    end.
Proof.
  induction a as [|s a IH]; [reflexivity|].
  destruct s; cbn [app first_reject]; try exact IH. reflexivity.
Qed.

Lemma first_reject_none (steps : list Step) :
  first_reject steps = None <-> forall e, ~ In (Reject e) steps.
Proof.
  split.
  - intros H e HI. destruct (first_reject_some _ _ HI) as [e' E]. congruence.
  - intros H. destruct (first_reject steps) as [e|] eqn:E; [|reflexivity].
    exfalso. exact (H e (first_reject_In _ _ E)).
Qed.

Lemma flat_map_nils {A B : Type} (l : list A) :
  flat_map (fun _ : A => @nil B) l = [].
Proof. induction l as [|x l IH]; [reflexivity | exact IH]. Qed.

(** Taking the turns of one function round by round, for at least as many
    rounds as it has turns, gives its steps in order. *)
Lemma flat_map_nth_concat {A : Type} (t : list (list A)) (n : nat) :
  (length t <= n)%nat -> flat_map (fun r => nth r t []) (seq 0 n) = List.concat t.
Proof.
  revert n. induction t as [|x t IH]; intros n H.
  - cbn [List.concat]. induction (seq 0 n) as [|r l IHl]; [reflexivity|].
    cbn [flat_map]. rewrite IHl. now destruct r.
  - destruct n as [|n]; [cbn [length] in H; lia|].
    rewrite <- cons_seq, <- seq_shift. cbn [flat_map nth List.concat]. f_equal.
    rewrite flat_map_concat_map, map_map, <- flat_map_concat_map.
    apply IH. cbn [length] in H. lia.
Qed.

Lemma promise_all_single (t : list (list Step)) : promise_all [t] = List.concat t.
Proof.
  unfold promise_all. cbn [map list_max fold_right]. rewrite Nat.max_0_r.
  rewrite <- (flat_map_nth_concat t (length t)) by lia.
  apply flat_map_ext. intros r. cbn [flat_map]. apply app_nil_r.
Qed.

Lemma bit_is_set_ok (client : Client) (key : string) (i user : Z) :
  getbit client key i = ReplyOk user -> bit_is_set client key i = (user =? 1).
Proof. intros H. unfold bit_is_set. now rewrite H. Qed.

(** The loop of a key whose GETBITs all succeed: no rejection, one entry
    for each bit that is 1, in ascending order, one GETBIT for each bit. *)
Lemma getbit_turns_run (client : Client) (key : string) (n : nat) (i : Z) :
  (forall j, i <= j < i + Z.of_nat n ->
             exists user, getbit client key j = ReplyOk user) ->
  first_reject (List.concat (getbit_turns client key i n)) = None
  /\ pushed_ids (List.concat (getbit_turns client key i n))
     = map (entry_of key) (List.filter (bit_is_set client key) (zrange i n))
  /\ sent_requests (List.concat (getbit_turns client key i n))
     = map (ReqGetbit key) (zrange (i + 1) (n - 1)).
Proof.
  revert i. induction n as [|k IH]; intros i H; [repeat split|].
  destruct (H i ltac:(lia)) as [user G].
  cbn [getbit_turns]. rewrite G. rewrite zrange_succ. cbn [List.filter].
  rewrite (bit_is_set_ok _ _ _ _ G).
  destruct k as [|k].
  - cbn [List.concat zrange seq map List.filter]. rewrite app_nil_r.
    destruct (user =? 1); repeat split.
  - destruct (IH (i + 1)) as (F & P & R).
    { intros j Hj. apply H. lia. }
    cbn [List.concat]. rewrite <- !app_assoc.
    rewrite first_reject_app, !pushed_ids_app, !sent_requests_app.
    cbn [Nat.sub] in *. rewrite Nat.sub_0_r in *.
    rewrite (zrange_succ (i + 1)).
    fold (entry_of key i).
    destruct (user =? 1); cbn [first_reject pushed_ids sent_requests app map];
      rewrite ?first_reject_app, ?pushed_ids_app, ?sent_requests_app;
      cbn [first_reject pushed_ids sent_requests app];
      rewrite F, P, R; repeat split.
  all: now rewrite (zrange_succ (i + 1)).
Qed.

(** The whole run of a key whose commands all succeed. *)
Lemma key_turns_run (client : Client) (key : string) (len : Z) :
  strlen client key = ReplyOk len ->
  (forall j, 0 <= j < len * 8 -> exists user, getbit client key j = ReplyOk user) ->
  first_reject (List.concat (key_turns client key)) = None
  /\ pushed_ids (List.concat (key_turns client key)) = key_ids client key
  /\ sent_requests (List.concat (key_turns client key))
     = ReqStrlen key :: map (ReqGetbit key) (zrange 0 (Z.to_nat (len * 8))).
Proof.
  intros S G. unfold key_turns, key_ids. rewrite S.
  destruct (Z.eqb_spec (len * 8) 0) as [E|NE].
  - rewrite E. repeat split.
  - destruct (Z.ltb_spec 0 (len * 8)) as [L|L].
    + destruct (getbit_turns_run client key (Z.to_nat (len * 8)) 0) as (F & P & R).
      { intros j Hj. apply G. lia. }
      cbn [List.concat app first_reject pushed_ids sent_requests].
      rewrite F, P, R. repeat split. do 2 f_equal.
      destruct (Z.to_nat (len * 8)) as [|n] eqn:En; [lia|].
      rewrite zrange_succ. cbn [Nat.sub map]. now rewrite Nat.sub_0_r.
    + replace (Z.to_nat (len * 8)) with 0%nat by lia. repeat split.
Qed.

Lemma getbit_turns_clean (client : Client) (key : string) (n : nat) (i : Z) :
  (forall turn e, In turn (getbit_turns client key i n) -> ~ In (Reject e) turn) ->
  forall j, i <= j < i + Z.of_nat n ->
            exists user, getbit client key j = ReplyOk user.
Proof.
  revert i. induction n as [|k IH]; intros i H j Hj; [lia|].
  cbn [getbit_turns] in H. destruct (getbit client key i) as [e|user] eqn:G.
  - exfalso. apply (H [Reject e] e); left; reflexivity.
  - destruct (Z.eq_dec j i) as [->|NE]; [eauto|].
    destruct k as [|k]; [lia|].
    apply (IH (i + 1)); [|lia].
    intros turn e Ht. apply H. right. exact Ht.
Qed.

(** A key none of whose turns rejects is a key whose commands all
    succeed. *)
Lemma key_turns_clean (client : Client) (key : string) :
  (forall turn e, In turn (key_turns client key) -> ~ In (Reject e) turn) ->
  key_ok client key.
Proof.
  unfold key_turns, key_ok. intros H.
  destruct (strlen client key) as [e|len].
  - exfalso. apply (H [Reject e] e); [right; left|left]; reflexivity.
  - exists len. split; [reflexivity|]. intros j Hj.
    destruct (Z.eqb_spec (len * 8) 0) as [E|NE]; [lia|].
    destruct (Z.ltb_spec 0 (len * 8)) as [L|L]; [|lia].
    apply (getbit_turns_clean client key (Z.to_nat (len * 8)) 0); [|lia].
    intros turn e Ht. apply H. right. right. exact Ht.
Qed.

Lemma key_ok_no_reject (client : Client) (key : string) :
  key_ok client key ->
  forall turn e, In turn (key_turns client key) -> ~ In (Reject e) turn.
Proof.
  intros (len & S & G) turn e Ht He.
  destruct (key_turns_run client key len S G) as (F & _).
  rewrite first_reject_none in F. apply (F e).
  apply in_concat. eauto.
Qed.

Lemma flat_map_app_perm {A B : Type} (g h : A -> list B) (l : list A) :
  Permutation (flat_map (fun x => g x ++ h x) l) (flat_map g l ++ flat_map h l).
Proof.
  induction l as [|x l IH]; [constructor|]. cbn [flat_map].
  rewrite IH, <- !app_assoc. apply Permutation_app_head.
  rewrite !app_assoc. apply Permutation_app_tail, Permutation_app_comm.
Qed.

(** Rounds of functions and functions of rounds hold the same steps. *)
Lemma flat_map_swap {A B C : Type} (f : A -> B -> list C) (la : list A) (lb : list B) :
  Permutation (flat_map (fun a => flat_map (f a) lb) la)
              (flat_map (fun b => flat_map (fun a => f a b) la) lb).
Proof.
  induction la as [|a la IH]; cbn [flat_map].
  - now rewrite flat_map_nils.
  - rewrite flat_map_app_perm. now apply Permutation_app_head.
Qed.

Lemma flat_map_ext_on {A B : Type} (f g : A -> list B) (l : list A) :
  (forall x, In x l -> f x = g x) -> flat_map f l = flat_map g l.
Proof.
  induction l as [|x l IH]; intros H; [reflexivity|]. cbn [flat_map].
  rewrite (H x) by (left; reflexivity).
  rewrite IH by (intros; apply H; right; assumption). reflexivity.
Qed.

(** The steps of the whole run are the steps of the per-key functions, in
    some order. *)
Lemma promise_all_perm (tasks : list (list (list Step))) :
  Permutation (promise_all tasks) (flat_map (@List.concat Step) tasks).
Proof.
  unfold promise_all. rewrite flat_map_swap.
  assert (E : flat_map (fun t : list (list Step) =>
                          flat_map (fun r => nth r t [])
                            (seq 0 (list_max (map (@length (list Step)) tasks))))
                       tasks
              = flat_map (@List.concat Step) tasks).
  { apply flat_map_ext_on. intros t Ht. apply flat_map_nth_concat.
    assert (F : Forall (fun k => k <= list_max (map (@length (list Step)) tasks))%nat
                    (map (@length (list Step)) tasks))
      by (apply list_max_le; lia).
    rewrite List.Forall_forall in F. apply F. now apply in_map. }
  now rewrite E.
Qed.

Lemma pushed_ids_perm (a b : list Step) :
  Permutation a b -> Permutation (pushed_ids a) (pushed_ids b).
Proof.
  induction 1 as [|s a b _ IH|s t a|a b c _ IH1 _ IH2].
  - constructor.
  - destruct s; cbn [pushed_ids]; auto.
  - destruct s, t; cbn [pushed_ids]; try reflexivity. apply perm_swap.
  - now rewrite IH1.
Qed.

Lemma pushed_ids_flat_map (client : Client) (keys : list string) :
  Forall (key_ok client) keys ->
  pushed_ids (flat_map (@List.concat Step) (map (key_turns client) keys))
  = flat_map (key_ids client) keys.
Proof.
  induction 1 as [|key keys (len & S & G) _ IH]; [reflexivity|].
  cbn [map flat_map]. rewrite pushed_ids_app, IH.
  destruct (key_turns_run client key len S G) as (_ & P & _). now rewrite P.
Qed.

(** [getUsers] calls back exactly when every key is a key whose commands
    all succeed. *)
Lemma getUsers_calls_back (now : Moment) (client : Client) (args : GetUsersArgs)
      (keys : list string) :
  users_keys now (users_type args) (users_action args) (users_date now args)
  = Some keys ->
  (exists r, outcome (getUsers now client args) = CallbackOk r)
  <-> Forall (key_ok client) keys.
Proof.
  intros HK. pose proof (users_keys_nonempty _ _ _ _ _ HK) as NE.
  destruct keys as [|key0 more]; [congruence|].
  rewrite (getUsers_keys _ _ _ _ _ HK). cbn zeta. cbn [outcome].
  set (steps := promise_all (map (key_turns client) (key0 :: more))).
  split.
  - intros [r H]. destruct (first_reject steps) as [e|] eqn:F; [discriminate H|].
    rewrite first_reject_none in F. apply List.Forall_forall. intros key HI.
    apply key_turns_clean. intros turn e Ht He. apply (F e).
    apply promise_all_In. exists (key_turns client key), turn.
    split; [now apply in_map|]. split; assumption.
  - intros H. assert (F : first_reject steps = None).
    { apply first_reject_none. intros e HI.
      apply promise_all_In in HI as (t & turn & Ht & Hturn & He).
      apply in_map_iff in Ht as (key & <- & HI).
      rewrite List.Forall_forall in H.
      exact (key_ok_no_reject client key (H key HI) turn e Hturn He). }
    rewrite F. eauto.
Qed.

(** The ids of a successful [getUsers] are the entries of its keys, in some
    order. *)
Lemma getUsers_ids_perm (now : Moment) (client : Client) (args : GetUsersArgs)
      (keys : list string) (r : UsersList) :
  users_keys now (users_type args) (users_action args) (users_date now args)
  = Some keys ->
  outcome (getUsers now client args) = CallbackOk r ->
  Permutation (ids r) (flat_map (key_ids client) keys).
Proof.
  intros HK H.
  assert (OK : Forall (key_ok client) keys)
    by (apply (getUsers_calls_back _ _ _ _ HK); eauto).
  pose proof (users_keys_nonempty _ _ _ _ _ HK) as NE.
  destruct keys as [|key0 more]; [congruence|].
  rewrite (getUsers_keys _ _ _ _ _ HK) in H. cbn zeta in H. cbn [outcome] in H.
  destruct (first_reject _); [discriminate H|].
  injection H as <-. cbn [ids].
  rewrite <- (pushed_ids_flat_map client _ OK).
  apply pushed_ids_perm, promise_all_perm.
Qed.

Lemma key_ids_positions (client : Client) (key : string) :
  key_ids client key = map (entry_of key) (key_positions client key).
Proof.
  unfold key_ids, key_positions. destruct (strlen client key); reflexivity.
Qed.

Lemma map_flat_map {A B C : Type} (g : B -> C) (f : A -> list B) (l : list A) :
  map g (flat_map f l) = flat_map (fun x => map g (f x)) l.
Proof.
  induction l as [|x l IH]; [reflexivity|]. cbn [flat_map].
  now rewrite map_app, IH.
Qed.

Lemma flat_map_map {A B C : Type} (g : A -> B) (f : B -> list C) (l : list A) :
  flat_map f (map g l) = flat_map (fun x => f (g x)) l.
Proof.
  induction l as [|x l IH]; [reflexivity|]. cbn [map flat_map]. now rewrite IH.
Qed.

(** X5: [getUsers] hands a result to its callback exactly when the STRLEN of
    every key and every GETBIT below 8 times that length succeed; the
    positions in the ids of the result are then, in some order, the
    positions of the keys: for each key one for each bit that is 1, none
    left out, and a user active on several days of the range once for each
    of them. *)
Theorem X5_getUsers_entries (now : Moment) (client : Client) (args : GetUsersArgs)
        (keys : list string) :
  users_keys now (users_type args) (users_action args) (users_date now args)
  = Some keys ->
  ((exists r, outcome (getUsers now client args) = CallbackOk r)
   <-> Forall (key_ok client) keys)
  /\ (forall r, outcome (getUsers now client args) = CallbackOk r ->
                Permutation (map id (ids r)) (flat_map (key_positions client) keys)).
Proof.
  intros HK. split; [now apply getUsers_calls_back|].
  intros r H.
  pose proof (Permutation_map id (getUsers_ids_perm now client args keys r HK H)) as P.
  rewrite map_flat_map in P.
  rewrite (flat_map_ext_on _ (key_positions client)) in P; [exact P|].
  intros key _. rewrite key_ids_positions, map_map. cbn [id entry_of].
  apply map_id.
Qed.

Lemma X5_witness :
  ((exists r, outcome (getUsers 0 (redisClient store_2024_01_01) scenario_call)
              = CallbackOk r)
   <-> Forall (key_ok (redisClient store_2024_01_01)) ["active-2024-01-01"])
  /\ (forall r, outcome (getUsers 0 (redisClient store_2024_01_01) scenario_call)
                = CallbackOk r ->
                Permutation (map id (ids r))
                  (flat_map (key_positions (redisClient store_2024_01_01))
                            ["active-2024-01-01"])).
Proof.
  apply (X5_getUsers_entries 0 (redisClient store_2024_01_01) scenario_call).
  reflexivity.
Defined.

Lemma redis_key_ok (db : gmap string (list byte)) (key : string) :
  key_ok (redisClient db) key.
Proof. eexists. split; [reflexivity|]. intros j _. eexists. reflexivity. Qed.

Lemma redis_key_ids (db : gmap string (list byte)) (key : string) :
  key_ids (redisClient db) key
  = let value := match db !! key with Some v => v | None => [] end in
    map (entry_of key)
        (List.filter (fun i => bit_at value i =? 1) (zrange 0 (8 * length value))).
Proof.
  unfold key_ids, bit_is_set, redisClient. cbn [strlen getbit]. cbn zeta.
  destruct (db !! key) as [v|].
  - replace (Z.to_nat (Z.of_nat (length v) * 8)) with (8 * length v)%nat by lia.
    reflexivity.
  - reflexivity.
Qed.

(** The run of [getUsers] for one day on a store that answers as Redis
    does. *)
Lemma getUsers_one_day_run (now : Moment) (db : gmap string (list byte))
      (action : JsValue) (date : option Moment) :
  let key := keyFor now action (Some (moment_utc now date)) in
  let value := match db !! key with Some v => v | None => [] end in
  getUsers now (redisClient db) (GetUsers5 (JsString "D") action date)
  = {| outcome :=
         CallbackOk
           {| from := dateOfKey key; to := dateOfKey key;
              ids := map (entry_of key)
                         (List.filter (fun i => bit_at value i =? 1)
                                      (zrange 0 (8 * length value))) |};
       requests :=
         ReqStrlen key :: map (ReqGetbit key) (zrange 0 (8 * length value)) |}.
Proof.
  intros key value.
  rewrite (getUsers_keys now (redisClient db) _ key []) by reflexivity.
  cbn zeta. cbn [map List.last]. rewrite promise_all_single.
  destruct (redis_key_ok db key) as (len & S & G).
  destruct (key_turns_run _ _ _ S G) as (F & P & R).
  rewrite F, P, R, redis_key_ids. cbn zeta. fold value.
  do 3 f_equal. cbn [strlen redisClient] in S. subst value.
  destruct (db !! key) as [v|]; injection S as <-; f_equal; lia.
Qed.

(** X7: on a store that answers as Redis does, when the day's bitset is
    shorter than 8 bytes the count [daily] reports is the number of ids
    [getUsers] reports for the day: the number of bits of the bitset that
    are 1. *)
Theorem X7_daily_count_is_number_of_ids (now : Moment) (db : gmap string (list byte))
        (action : JsValue) (date : option Moment) :
  (forall v, db !! keyFor now action (Some (moment_utc now date)) = Some v ->
             (length v < 8)%nat) ->
  exists r,
    outcome (getUsers now (redisClient db) (GetUsers5 (JsString "D") action date))
    = CallbackOk r
    /\ outcome (daily now (redisClient db) (Report4 action date))
       = CallbackOk (length (ids r)).
Proof.
  intros H. rewrite getUsers_one_day_run. cbn zeta. cbn [outcome].
  eexists. split; [reflexivity|]. cbn [ids]. rewrite length_map.
  rewrite (daily_one_key now (redisClient db) (Report4 action date)
             (db !! keyFor now action (Some (moment_utc now date))))
    by reflexivity.
  f_equal. destruct (db !! keyFor now action (Some (moment_utc now date))) as [v|].
  - rewrite day_integer_short by (apply H; reflexivity).
    apply cardinality_be_unsigned.
  - reflexivity.
Qed.

Lemma X7_witness :
  exists r,
    outcome (getUsers 0 (redisClient store_2024_01_01)
               (GetUsers5 (JsString "D") JsUndefined (Some date_2024_01_01)))
    = CallbackOk r
    /\ outcome (daily 0 (redisClient store_2024_01_01)
                  (Report4 JsUndefined (Some date_2024_01_01)))
       = CallbackOk (length (ids r)).
Proof.
  apply (X7_daily_count_is_number_of_ids 0 store_2024_01_01 JsUndefined
           (Some date_2024_01_01)).
  intros v. vm_compute. intros [= <-]. cbn. lia.
Defined.

(* ===================================================================== *)
(** * Further properties: keys and the moment they are made from *)
(* ===================================================================== *)

(** The state a mutating closure leaves its object in after [_.times]. *)
Lemma times_from_state {S A : Type} (f : Z -> S -> A * S) (h : Z -> S)
      (P : S -> Prop) (n : nat) (lo : Z) (s : S) :
  (forall i s, lo <= i <= lo + Z.of_nat n -> P s ->
               snd (f i s) = h i /\ P (h i)) ->
  P s ->
  snd (times_from lo (Datatypes.S n) f s) = h (lo + Z.of_nat n).
Proof.
  revert lo s. induction n as [|n IH]; intros lo s H Hs.
  - cbn [times_from]. destruct (H lo s ltac:(lia) Hs) as [E _].
    destruct (f lo s) as [a s1]. cbn [snd] in *. rewrite E. f_equal. lia.
  - cbn [times_from]. destruct (H lo s ltac:(lia) Hs) as [E P1].
    destruct (f lo s) as [a s1]. cbn [snd] in E. subst s1.
    specialize (IH (lo + 1) (h lo)). cbn [times_from] in IH.
    destruct (f (lo + 1) (h lo)) as [a1 s2].
    destruct (times_from (lo + 1 + 1) n f s2) as [rest s3]. cbn [snd] in *.
    rewrite IH; [f_equal; lia | | exact P1].
    intros i s' Hi. apply H. lia.
Qed.

Lemma weekKeys_state (now date : Moment) (action : JsValue) :
  snd (weekKeys now date action) = midnight (Day (startOf week date) + 6).
Proof.
  unfold weekKeys, times. change (Z.to_nat 7) with 7%nat.
  rewrite (times_from_state _ (fun n => add_days n (startOf week date))
             (fun s => startOf week s = startOf week date)).
  - rewrite startOf_week_midnight, add_days_midnight, Day_midnight.
    reflexivity.
  - intros i s Hi Hs. cbn [snd]. rewrite Hs. split; [reflexivity|].
    apply startOf_week_fixed. lia.
  - reflexivity.
Qed.

Lemma monthKeys_state (now date : Moment) (action : JsValue) :
  snd (monthKeys now date action)
  = midnight (Day (startOf month date) + daysInMonth date - 1).
Proof.
  unfold monthKeys, times. pose proof (daysInMonth_range date) as R.
  replace (Z.to_nat (daysInMonth date))
    with (Datatypes.S (Z.to_nat (daysInMonth date - 1))) by lia.
  rewrite (times_from_state _ (fun n => add_days n (startOf month date))
             (fun s => startOf month s = startOf month date)).
  - rewrite startOf_month_midnight, add_days_midnight, Day_midnight.
    f_equal. lia.
  - intros i s Hi Hs. cbn [snd]. rewrite Hs. split; [reflexivity|].
    apply startOf_month_fixed. lia.
  - reflexivity.
Qed.

(** Every moment of a week has the start of that week. *)
Lemma startOf_week_within (date date' : Moment) :
  Day (startOf week date) <= Day date' < Day (startOf week date) + 7 ->
  startOf week date' = startOf week date.
Proof.
  rewrite !startOf_week_midnight, Day_midnight. intros H. f_equal.
  Z.div_mod_to_equations. lia.
Qed.

(** Every moment of a month has the start and the length of that month. *)
Lemma startOf_month_within (date date' : Moment) :
  Day (startOf month date) <= Day date'
  < Day (startOf month date) + daysInMonth date ->
  startOf month date' = startOf month date
  /\ daysInMonth date' = daysInMonth date.
Proof.
  rewrite startOf_month_midnight, Day_midnight. intros H.
  destruct (civil_MakeDay (YearFromTime date) (MonthFromTime date)
              (Day date' - MakeDay (YearFromTime date) (MonthFromTime date) 1 + 1)
              date') as (Y & M & _).
  - apply civil_range.
  - unfold daysInMonth in H. lia.
  - unfold MakeDay. lia.
  - rewrite !startOf_month_midnight. unfold daysInMonth. now rewrite Y, M.
Qed.

Lemma weekKeys_within (now date date' : Moment) (action : JsValue) :
  Day (startOf week date) <= Day date' < Day (startOf week date) + 7 ->
  fst (weekKeys now date' action) = fst (weekKeys now date action).
Proof.
  intros H. rewrite !weekKeys_days. now rewrite (startOf_week_within date date' H).
Qed.

Lemma monthKeys_within (now date date' : Moment) (action : JsValue) :
  Day (startOf month date) <= Day date'
  < Day (startOf month date) + daysInMonth date ->
  fst (monthKeys now date' action) = fst (monthKeys now date action).
Proof.
  intros H. rewrite !monthKeys_days.
  destruct (startOf_month_within date date' H) as [-> ->]. reflexivity.
Qed.

(** X8: [weekKeys] and [monthKeys] change the moment they are given: after
    the call it is midnight of the last day of the week, or of the month,
    whatever day and time it was before. The new state is in the same week,
    or month, so the keys made from it again are the same keys. *)
Theorem X8_keys_mutate_the_moment (now date : Moment) (action action' : JsValue) :
  snd (weekKeys now date action) = midnight (Day (startOf week date) + 6)
  /\ snd (monthKeys now date action)
     = midnight (Day (startOf month date) + daysInMonth date - 1)
  /\ DateFromTime (snd (monthKeys now date action)) = daysInMonth date
  /\ fst (weekKeys now (snd (weekKeys now date action)) action')
     = fst (weekKeys now date action')
  /\ fst (monthKeys now (snd (monthKeys now date action)) action')
     = fst (monthKeys now date action').
Proof.
  pose proof (daysInMonth_range date) as R.
  rewrite weekKeys_state, monthKeys_state.
  split; [reflexivity|]. split; [reflexivity|]. split; [|split].
  - destruct (month_day date (daysInMonth date - 1) ltac:(lia)) as (_ & _ & D).
    rewrite startOf_month_midnight, add_days_midnight in D.
    rewrite startOf_month_midnight, Day_midnight.
    replace (MakeDay (YearFromTime date) (MonthFromTime date) 1
             + daysInMonth date - 1)
      with (MakeDay (YearFromTime date) (MonthFromTime date) 1
            + (daysInMonth date - 1)) by lia.
    rewrite D. lia.
  - apply weekKeys_within. rewrite Day_midnight. lia.
  - apply monthKeys_within. rewrite Day_midnight. lia.
Qed.

(** X9: the key of a day is one of the week keys and one of the month keys
    made from any moment of that day, and every moment of one week, or
    month, gives the same week keys, or month keys. *)
Theorem X9_day_key_in_week_and_month (now date : Moment) (action : JsValue) :
  In (keyFor now action (Some date)) (fst (weekKeys now date action))
  /\ In (keyFor now action (Some date)) (fst (monthKeys now date action))
  /\ (forall date',
        Day (startOf week date) <= Day date' < Day (startOf week date) + 7 ->
        fst (weekKeys now date' action) = fst (weekKeys now date action))
  /\ (forall date',
        Day (startOf month date) <= Day date'
        < Day (startOf month date) + daysInMonth date ->
        fst (monthKeys now date' action) = fst (monthKeys now date action)).
Proof.
  pose proof (daysInMonth_range date) as R.
  pose proof (startOf_week_spec date) as [_ W].
  pose proof (civil_range date) as C.
  split; [|split; [|split]].
  - rewrite weekKeys_days, (keyFor_day now action date).
    apply (in_map (fun d => keyFor now action (Some (midnight d)))).
    apply zrange_In. lia.
  - rewrite monthKeys_days, (keyFor_day now action date).
    apply (in_map (fun d => keyFor now action (Some (midnight d)))).
    apply zrange_In. rewrite startOf_month_midnight, Day_midnight.
    pose proof (Day_MakeDay date) as E. unfold MakeDay in *. lia.
  - intros date'. apply weekKeys_within.
  - intros date'. apply monthKeys_within.
Qed.

(** X10: for one action, two moments get the same key exactly when they are
    on the same UTC day. *)
Theorem X10_same_key_same_day (now : Moment) (action : JsValue) (t1 t2 : Moment) :
  keyFor now action (Some t1) = keyFor now action (Some t2) <-> Day t1 = Day t2.
Proof.
  split; [apply keyFor_inj|].
  intros E. rewrite (keyFor_day now action t1), (keyFor_day now action t2).
  now rewrite E.
Qed.

(* ===================================================================== *)
(** * Further properties: bounds on the count *)
(* ===================================================================== *)

Lemma int64_range_shiftr (z : Z) :
  int64_range z <-> (Z.shiftr z 63 = 0 \/ Z.shiftr z 63 = -1).
Proof.
  unfold int64_range. rewrite Z.shiftr_div_pow2 by lia.
  change (2 ^ 63) with 9223372036854775808.
  split; intros H; Z.div_mod_to_equations; lia.
Qed.

Lemma int64_range_lor (a b : Z) :
  int64_range a -> int64_range b -> int64_range (Z.lor a b).
Proof.
  rewrite !int64_range_shiftr, Z.shiftr_lor.
  intros [-> | ->] [-> | ->]; cbn; auto.
Qed.

Lemma day_integer_int64 (buffer : option Buffer) : int64_range (day_integer buffer).
Proof.
  destruct buffer as [buffer|]; [|unfold int64_range; cbn; lia].
  unfold day_integer, int64_range, signed64.
  pose proof (be_unsigned_range (firstn 8 (to64Bits buffer))) as R.
  pose proof (to64Bits_length buffer) as L.
  rewrite length_firstn, Nat.min_l in R by exact L.
  change (256 ^ Z.of_nat 8) with 18446744073709551616 in R.
  change (2 ^ 63) with 9223372036854775808.
  change (2 ^ 64) with 18446744073709551616.
  destruct (Z.ltb_spec (be_unsigned (firstn 8 (to64Bits buffer)))
                       9223372036854775808); lia.
Qed.

Lemma big_lor_int64 (l : list Z) :
  Forall int64_range l -> int64_range (big_lor l).
Proof.
  induction 1 as [|x l Hx _ IH]; [unfold int64_range; cbn; lia|].
  cbn [big_lor fold_right]. now apply int64_range_lor.
Qed.

Lemma cardinality_int64 (z : Z) : int64_range z -> (cardinality z <= 63)%nat.
Proof.
  unfold int64_range. intros H. rewrite cardinality_abs.
  destruct (Z.eq_dec (Z.abs z) (2 ^ 63)) as [-> | NE].
  - vm_compute. lia.
  - rewrite (cardinality_width 63) by (change (Z.of_nat 63) with 63; lia).
    etransitivity; [apply filter_length_le|]. now rewrite length_seq.
Qed.

Lemma activeUsers_one_key (client : Client) (key : string) :
  activeUsers client (OneKey key) = activeUsers client (ManyKeys [key]).
Proof. reflexivity. Qed.

Lemma activeUsers_count_int64 (client : Client) (keys : list string) (n : nat) :
  outcome (activeUsers client (ManyKeys keys)) = CallbackOk n -> (n <= 63)%nat.
Proof.
  unfold activeUsers. cbn [outcome].
  destruct (async_map keys (get client)) as [e|results]; [discriminate|].
  rewrite binaryBigint_big_lor. intros [= <-].
  apply cardinality_int64, big_lor_int64, List.Forall_forall.
  intros x Hx. apply in_map_iff in Hx as (r & <- & _). apply day_integer_int64.
Qed.

(** X11: the integer that is counted is always a signed 64-bit integer, and
    the count of one is at most 63: [daily], [weekly] and [monthly] never
    report more than 63 users, whatever the store holds. *)
Theorem X11_count_at_most_63 (now : Moment) (client : Client) (args : ReportArgs)
        (n : nat) :
  outcome (daily now client args) = CallbackOk n
  \/ outcome (weekly now client args) = CallbackOk n
  \/ outcome (monthly now client args) = CallbackOk n ->
  (n <= 63)%nat.
Proof.
  unfold daily, weekly, monthly. rewrite activeUsers_one_key.
  intros [H|[H|H]]; exact (activeUsers_count_int64 _ _ _ H).
Qed.

Lemma X11_witness : (1 <= 63)%nat.
Proof.
  apply (X11_count_at_most_63 0 (redisClient store_all_ones)
           (Report4 JsUndefined (Some date_2024_01_01)) 1).
  left. vm_compute. reflexivity.
Defined.

Lemma filter_orb_bounds {A : Type} (f g : A -> bool) (l : list A) :
  (length (List.filter f l) <= length (List.filter (fun x => f x || g x) l)
   <= length (List.filter f l) + length (List.filter g l))%nat.
Proof.
  induction l as [|x l IH]; [cbn; lia|]. cbn [List.filter].
  destruct (f x), (g x); cbn [orb length]; lia.
Qed.

(** The count of the or of two non-negative integers is at least the count
    of each and at most their sum. *)
Lemma cardinality_lor_bounds (a b : Z) :
  0 <= a -> 0 <= b ->
  (cardinality a <= cardinality (Z.lor a b) <= cardinality a + cardinality b)%nat.
Proof.
  intros Ha Hb.
  set (w := Z.to_nat (Z.max (Z.log2 a) (Z.log2 b) + 1)).
  pose proof (Z.log2_nonneg a). pose proof (Z.log2_nonneg b).
  assert (W : forall x, 0 <= x -> Z.log2 x <= Z.max (Z.log2 a) (Z.log2 b) ->
                        0 <= x < 2 ^ Z.of_nat w).
  { intros x Hx Hl. split; [exact Hx|].
    destruct (Z.eq_dec x 0) as [->|NZ]; [apply Z.pow_pos_nonneg; lia|].
    apply Z.log2_lt_pow2; [lia|]. unfold w. lia. }
  assert (Hab : 0 <= Z.lor a b) by (apply Z.lor_nonneg; split; assumption).
  rewrite (cardinality_width w a), (cardinality_width w b),
    (cardinality_width w (Z.lor a b));
    [|apply W; [exact Hab | rewrite Z.log2_lor by assumption; lia]
     |apply W; [exact Hb | lia] |apply W; [exact Ha | lia]].
  rewrite (filter_ext (fun j => Z.testbit (Z.lor a b) (Z.of_nat j))
             (fun j => Z.testbit a (Z.of_nat j) || Z.testbit b (Z.of_nat j)))
    by (intros j; apply Z.lor_spec).
  apply filter_orb_bounds.
Qed.

Lemma big_lor_nonneg (l : list Z) : Forall (Z.le 0) l -> 0 <= big_lor l.
Proof.
  induction 1 as [|x l Hx _ IH]; [cbn; lia|].
  cbn [big_lor fold_right]. apply Z.lor_nonneg. split; assumption.
Qed.

Lemma big_lor_count_bounds (l : list Z) :
  Forall (Z.le 0) l ->
  (forall x, In x l -> (cardinality x <= cardinality (big_lor l))%nat)
  /\ (cardinality (big_lor l) <= list_sum (map cardinality l))%nat.
Proof.
  induction 1 as [|y l Hy Hl [IHlow IHup]]; [split; [intros x []|cbn; lia]|].
  change (big_lor (y :: l)) with (Z.lor y (big_lor l)).
  change (list_sum (map cardinality (y :: l)))
    with (cardinality y + list_sum (map cardinality l))%nat.
  pose proof (big_lor_nonneg l Hl) as NB.
  pose proof (cardinality_lor_bounds y (big_lor l) Hy NB) as [B1 B2].
  pose proof (cardinality_lor_bounds (big_lor l) y NB Hy) as [B3 _].
  rewrite Z.lor_comm in B3. split; [|lia].
  intros x [<-|Hx]; [exact B1|]. specialize (IHlow x Hx). lia.
Qed.

(** X12: when every bitset of the range is shorter than 8 bytes, the count
    of the range is at least what [daily] reports for any of its days and at
    most the sum of what it reports for each of them. *)
Theorem X12_range_count_between_day_counts
        (client : Client) (keys : list string) (results : list (option Buffer)) :
  async_map keys (get client) = ReplyOk results ->
  (forall buffer, In (Some buffer) results -> (length buffer < 8)%nat) ->
  exists n,
    outcome (activeUsers client (ManyKeys keys)) = CallbackOk n
    /\ (forall r, In r results -> (cardinality (day_integer r) <= n)%nat)
    /\ (n <= list_sum (map (fun r => cardinality (day_integer r)) results))%nat.
Proof.
  intros HM HS. rewrite (activeUsers_ok _ _ _ HM). eexists. split; [reflexivity|].
  assert (NN : Forall (Z.le 0) (map day_integer results)).
  { apply List.Forall_forall. intros x Hx. apply in_map_iff in Hx as (r & <- & Hr).
    destruct r as [buffer|]; [|cbn; lia].
    rewrite day_integer_short by (now apply HS). apply be_unsigned_range. }
  destruct (big_lor_count_bounds _ NN) as [Low Up]. split.
  - intros r Hr. apply Low. now apply in_map.
  - now rewrite map_map in Up.
Qed.

Lemma X12_witness :
  exists n,
    outcome (activeUsers (redisClient store_2024_01_01)
               (ManyKeys ["active-2024-01-01"; "active-2024-01-02"]))
    = CallbackOk n
    /\ (forall r, In r [Some [xa0]; None] -> (cardinality (day_integer r) <= n)%nat)
    /\ (n <= list_sum (map (fun r => cardinality (day_integer r))
                           [Some [xa0]; None]))%nat.
Proof.
  apply (X12_range_count_between_day_counts (redisClient store_2024_01_01)
           ["active-2024-01-01"; "active-2024-01-02"] [Some [xa0]; None]).
  - vm_compute. reflexivity.
  - intros buffer [[= <-]|[H|[]]]; [cbn; lia | discriminate H].
Defined.

(** With a bitset whose first bit is set the bounds are lost: two days of
    one user each, and the range counts 63. *)
Example range_count_above_the_sum :
  outcome (activeUsers
             (redisClient (<[ "b" := [x00; x00; x00; x00; x00; x00; x00; x01] ]>
                             {[ "a" := [x80; x00; x00; x00; x00; x00; x00; x00] ]}))
             (ManyKeys ["a"; "b"]))
  = CallbackOk 63%nat.
Proof. vm_compute. reflexivity. Qed.

(* ===================================================================== *)
(** * Further properties: the dates in the result of getUsers *)
(* ===================================================================== *)

Lemma YearFromDay_mono (d d' : Z) : d <= d' -> YearFromDay d <= YearFromDay d'.
Proof.
  intros H. pose proof (YearFromDay_spec d) as S. pose proof (YearFromDay_spec d') as S'.
  destruct (Z.le_gt_cases (YearFromDay d) (YearFromDay d')) as [L|L]; [exact L|].
  pose proof (DayFromYear_mono (YearFromDay d' + 1) (YearFromDay d) ltac:(lia)).
  lia.
Qed.

Lemma format_day (t : Moment) :
  format_YYYY_MM_DD (midnight (Day t)) = format_YYYY_MM_DD t.
Proof.
  unfold format_YYYY_MM_DD, DateFromTime, MonthFromTime, InLeapYear, YearFromTime.
  now rewrite Day_midnight.
Qed.

(** The keys of [getUsers] are the keys of the days of its range. *)
Lemma users_keys_range (now : Moment) (type action : JsValue) (date : Moment) :
  users_keys now type action date
  = match users_range type date with
    | Some (lo, n) =>
        Some (map (fun d => keyFor now action (Some (midnight d))) (zrange lo n))
    | None => None
    end.
Proof.
  unfold users_keys, users_range.
  destruct (strict_eq type "D").
  { cbn [zrange seq map]. now rewrite Z.add_0_r, <- keyFor_day. }
  destruct (strict_eq type "W"); [now rewrite weekKeys_days|].
  destruct (strict_eq type "M"); [now rewrite monthKeys_days|]. reflexivity.
Qed.

Lemma users_range_positive (type : JsValue) (date : Moment) (lo : Z) (n : nat) :
  users_range type date = Some (lo, n) -> (0 < n)%nat.
Proof.
  unfold users_range. pose proof (daysInMonth_range date) as R.
  destruct (strict_eq type "D"); [intros [= _ <-]; lia|].
  destruct (strict_eq type "W"); [intros [= _ <-]; lia|].
  destruct (strict_eq type "M"); [intros [= _ <-]; lia | discriminate].
Qed.

Lemma zrange_first_last {A : Type} (f : Z -> A) (lo : Z) (n : nat) :
  map f (zrange lo (S n)) = f lo :: map f (zrange (lo + 1) n)
  /\ List.last (map f (zrange lo (S n))) (f lo) = f (lo + Z.of_nat n).
Proof.
  split; [now rewrite zrange_succ|].
  unfold zrange. rewrite seq_S, !map_app. cbn [map Nat.add].
  apply last_last.
Qed.

(** The first and the last text of a successful [getUsers]. *)
Lemma getUsers_from_to (now : Moment) (client : Client) (args : GetUsersArgs)
      (lo : Z) (n : nat) (r : UsersList) :
  users_range (users_type args) (users_date now args) = Some (lo, n) ->
  outcome (getUsers now client args) = CallbackOk r ->
  from r = dateOfKey (keyFor now (users_action args) (Some (midnight lo)))
  /\ to r = dateOfKey (keyFor now (users_action args)
                         (Some (midnight (lo + Z.of_nat n - 1)))).
Proof.
  intros HR HO. pose proof (users_range_positive _ _ _ _ HR) as NP.
  destruct n as [|n]; [lia|].
  pose proof (users_keys_range now (users_type args) (users_action args)
                (users_date now args)) as HK.
  rewrite HR in HK.
  destruct (zrange_first_last
              (fun d => keyFor now (users_action args) (Some (midnight d))) lo n)
    as [E L].
  rewrite E in HK, L. rewrite (getUsers_keys _ _ _ _ _ HK) in HO.
  cbn zeta in HO. cbn [outcome] in HO.
  destruct (first_reject _); [discriminate HO|]. injection HO as <-.
  cbn [from to]. split; [reflexivity|].
  cbn [List.last] in L. rewrite L. do 4 f_equal. lia.
Qed.

(** X13: when [getUsers] succeeds for an action without a hyphen and a range
    that starts in a year that is not negative, [from] is the [YYYY-MM-DD]
    form of the first day of the range and [to] that of its last day: the
    day itself, the first and the last day of the week, or of the month. *)
Theorem X13_from_to_are_the_ends_of_the_range
        (now : Moment) (client : Client) (args : GetUsersArgs)
        (lo : Z) (n : nat) (r : UsersList) :
  users_range (users_type args) (users_date now args) = Some (lo, n) ->
  no_dash (or_default (users_action args) "active") = true ->
  0 <= YearFromTime (midnight lo) ->
  outcome (getUsers now client args) = CallbackOk r ->
  from r = format_YYYY_MM_DD (midnight lo)
  /\ to r = format_YYYY_MM_DD (midnight (lo + Z.of_nat n - 1)).
Proof.
  intros HR HA HY HO. destruct (getUsers_from_to _ _ _ _ _ _ HR HO) as [-> ->].
  pose proof (users_range_positive _ _ _ _ HR) as NP.
  rewrite !dateOfKey_keyFor; try assumption; [split; reflexivity|].
  unfold YearFromTime in *. rewrite Day_midnight in *.
  pose proof (YearFromDay_mono lo (lo + Z.of_nat n - 1) ltac:(lia)). lia.
Qed.

Lemma X13_witness :
  from {| from := "2023-12-31"; to := "2024-01-06"; ids := [] |}
  = format_YYYY_MM_DD (midnight 19722)
  /\ to {| from := "2023-12-31"; to := "2024-01-06"; ids := [] |}
     = format_YYYY_MM_DD (midnight (19722 + Z.of_nat 7 - 1)).
Proof.
  apply (X13_from_to_are_the_ends_of_the_range 0 (redisClient ∅)
           (GetUsers5 (JsString "W") JsUndefined (Some date_2024_01_01)));
    vm_compute; first [reflexivity | discriminate].
Defined.

(** C7: when every queried key has no bitset, or an empty one, [daily],
    [weekly] and [monthly] hand the count 0 to the callback, and [getUsers]
    hands it a result with no ids; for an action without a hyphen and a
    range that starts in a year that is not negative, the [from] of that
    result is the [YYYY-MM-DD] form of the first day of the range and its
    [to] that of the last day. None of them fails. In any range such a key
    adds nothing to the count, its per-key function in [getUsers] sends one
    STRLEN and ends, and a rejection of [getUsers] never comes from it. *)
Theorem C7_vacant_range (now : Moment) (client : Client) :
  (forall args : ReportArgs,
      Forall (vacant client)
             [keyFor now (report_action args) (Some (report_date now args))] ->
      outcome (daily now client args) = CallbackOk 0%nat)
  /\ (forall args : ReportArgs,
        Forall (vacant client)
               (fst (weekKeys now (report_date now args) (report_action args))) ->
        outcome (weekly now client args) = CallbackOk 0%nat)
  /\ (forall args : ReportArgs,
        Forall (vacant client)
               (fst (monthKeys now (report_date now args) (report_action args))) ->
        outcome (monthly now client args) = CallbackOk 0%nat)
  /\ (forall (args : GetUsersArgs) (keys : list string),
        users_keys now (users_type args) (users_action args) (users_date now args)
        = Some keys ->
        Forall (vacant client) keys ->
        exists r,
          outcome (getUsers now client args) = CallbackOk r
          /\ ids r = []
          /\ forall (lo : Z) (n : nat),
               users_range (users_type args) (users_date now args) = Some (lo, n) ->
               no_dash (or_default (users_action args) "active") = true ->
               0 <= YearFromTime (midnight lo) ->
               from r = format_YYYY_MM_DD (midnight lo)
               /\ to r = format_YYYY_MM_DD (midnight (lo + Z.of_nat n - 1)))
  /\ (forall (pre post : list string) (key : string),
        vacant client key ->
        outcome (activeUsers client (ManyKeys (pre ++ key :: post)))
        = outcome (activeUsers client (ManyKeys (pre ++ post))))
  /\ (forall key : string,
        vacant client key ->
        key_turns client key = [[Request (ReqStrlen key)]; []])
  /\ (forall (args : GetUsersArgs) (keys : list string) (e : JsError),
        users_keys now (users_type args) (users_action args) (users_date now args)
        = Some keys ->
        outcome (getUsers now client args) = Rejected e ->
        exists key, In key keys /\ ~ vacant client key).
Proof.
  split; [|split; [|split; [|split; [|split; [|split]]]]].
  - intros args H. exact (activeUsers_vacant client _ H).
  - intros args H. exact (activeUsers_vacant client _ H).
  - intros args H. exact (activeUsers_vacant client _ H).
  - intros args keys HK HV.
    pose proof (users_keys_nonempty _ _ _ _ _ HK) as NE.
    destruct keys as [|key0 more]; [congruence|].
    pose proof (f_equal outcome (getUsers_vacant _ _ _ _ _ HK HV)) as O.
    cbn [outcome] in O. eexists. split; [exact O|]. split; [reflexivity|].
    intros lo n HR HA HY.
    pose proof (users_range_positive _ _ _ _ HR) as NP.
    destruct (getUsers_from_to _ _ _ _ _ _ HR O) as [F T].
    assert (HY' : 0 <= YearFromTime (midnight (lo + Z.of_nat n - 1))).
    { unfold YearFromTime in *. rewrite Day_midnight in *.
      pose proof (YearFromDay_mono lo (lo + Z.of_nat n - 1) ltac:(lia)). lia. }
    split.
    + etransitivity; [exact F|]. now apply dateOfKey_keyFor.
    + etransitivity; [exact T|]. now apply dateOfKey_keyFor.
  - intros pre post key V. now apply activeUsers_skip_vacant.
  - intros key V. now apply key_turns_vacant.
  - intros args keys e HK HO.
    destruct (getUsers_rejection_source _ _ _ _ _ HK HO) as (key & HI & NV & _).
    exists key. split; assumption.
Qed.

Lemma C7_witness :
  exists r,
    outcome (getUsers 0 (redisClient ∅)
               (GetUsers5 (JsString "M") (JsString "login") (Some date_2024_01_01)))
    = CallbackOk r
    /\ ids r = [] /\ from r = "2024-01-01" /\ to r = "2024-01-31".
Proof.
  destruct (proj1 (proj2 (proj2 (proj2 (C7_vacant_range 0 (redisClient ∅)))))
              (GetUsers5 (JsString "M") (JsString "login") (Some date_2024_01_01))
              _ eq_refl)
    as (r & O & I & FT).
  - repeat constructor.
  - destruct (FT _ _ eq_refl eq_refl) as [F T]; [vm_compute; discriminate|].
    exists r. split; [exact O|]. split; [exact I|]. split; [exact F | exact T].
Defined.




Lemma zeroFill_4_length (y : Z) :
  0 <= y <= 9999 -> String.length (zeroFill y 4) = 4%nat.
Proof.
  intros H.
  assert (C : forallb (fun k => (String.length (zeroFill (Z.of_nat k) 4) =? 4)%nat)
                      (seq 0 (Z.to_nat 10000)) = true) by (vm_compute; reflexivity).
  rewrite forallb_forall in C. specialize (C (Z.to_nat y)).
  rewrite Z2Nat.id in C by lia. apply Nat.eqb_eq, C, in_seq. lia.
Qed.

(** Reading the [YYYY-MM-DD] form of a moment of the years 0 to 9999 gives
    the midnight of its day. *)
Lemma moment_parse_format (t : Moment) :
  0 <= YearFromTime t <= 9999 ->
  moment_parse (format_YYYY_MM_DD t) = Some (midnight (Day t)).
Proof.
  intros HY. pose proof (civil_range t) as R. pose proof (daysInMonth_range t) as R'.
  unfold moment_parse, split, format_YYYY_MM_DD.
  rewrite split_from_piece by (eapply digits_no_dash, zeroFill_nonneg; lia).
  rewrite split_from_piece by (eapply digits_no_dash, zeroFill_nonneg; lia).
  rewrite split_from_last by (eapply digits_no_dash, zeroFill_nonneg; lia).
  rewrite !append_nil_l.
  rewrite zeroFill_4_length, !zeroFill_2_length by lia.
  rewrite !zeroFill_nonneg by lia. cbn [Nat.eqb andb].
  replace (MonthFromTime t + 1 - 1) with (MonthFromTime t) by lia.
  fold (daysInMonth t).
  destruct (Z.leb_spec 1 (MonthFromTime t + 1)); [|lia].
  destruct (Z.leb_spec (MonthFromTime t + 1) 12); [|lia].
  destruct (Z.leb_spec 1 (DateFromTime t)); [|lia].
  destruct (Z.leb_spec (DateFromTime t) (daysInMonth t)); [|lia].
  cbn [andb]. unfold midnight. now rewrite <- Day_MakeDay.
Qed.

(** The date an id of the key of a day is tagged with. *)
Lemma moment_format_key (now : Moment) (action : JsValue) (t : Moment) :
  no_dash (or_default action "active") = true ->
  0 <= YearFromTime t <= 9999 ->
  moment_format (dateOfKey (keyFor now action (Some t))) = format_YYYY_MM_DD t.
Proof.
  intros HA HY. rewrite dateOfKey_keyFor by (assumption || lia).
  unfold moment_format. rewrite moment_parse_format by exact HY.
  apply format_day.
Qed.

(** X6: for one day, an action without a hyphen and a year from 0 to 9999,
    on a store that answers as Redis does, [getUsers] hands its callback
    the bit positions of the day's bitset that are 1, in ascending order,
    each once and each with the [YYYY-MM-DD] form of the day, which is also
    [from] and [to]; it sends one STRLEN and then one GETBIT for each bit
    of the bitset, in order. *)
Theorem X6_getUsers_one_day (now : Moment) (db : gmap string (list byte))
        (action : JsValue) (date : option Moment) :
  no_dash (or_default action "active") = true ->
  0 <= YearFromTime (moment_utc now date) <= 9999 ->
  let key := keyFor now action (Some (moment_utc now date)) in
  let value := match db !! key with Some v => v | None => [] end in
  let day := format_YYYY_MM_DD (moment_utc now date) in
  getUsers now (redisClient db) (GetUsers5 (JsString "D") action date)
  = {| outcome :=
         CallbackOk
           {| from := day; to := day;
              ids := map (fun i => {| id := i; date := day |})
                         (List.filter (fun i => bit_at value i =? 1)
                                      (zrange 0 (8 * length value))) |};
       requests :=
         ReqStrlen key :: map (ReqGetbit key) (zrange 0 (8 * length value)) |}.
Proof.
  intros HA HY. cbn zeta. rewrite getUsers_one_day_run. cbn zeta.
  unfold entry_of.
  rewrite (moment_format_key now action _ HA HY).
  rewrite (dateOfKey_keyFor now action _ HA) by lia.
  reflexivity.
Qed.

Lemma X6_witness :
  getUsers 0 (redisClient store_2024_01_01) scenario_call
  = {| outcome :=
         CallbackOk
           {| from := "2024-01-01"; to := "2024-01-01";
              ids := [ {| id := 0; date := "2024-01-01" |};
                       {| id := 2; date := "2024-01-01" |} ] |};
       requests :=
         ReqStrlen "active-2024-01-01"
         :: map (ReqGetbit "active-2024-01-01") (zrange 0 8) |}.
Proof.
  apply (X6_getUsers_one_day 0 store_2024_01_01 JsUndefined
           (Some date_2024_01_01)).
  - reflexivity.
  - vm_compute. split; discriminate.
Defined.

(** X15: when [getUsers] succeeds for an action without a hyphen and a range
    within the years 0 to 9999, its ids are, in some order, those of the
    days of the range: for each day one entry for each bit of that day's
    bitset that is 1, with the [YYYY-MM-DD] form of that day as its date. *)
Theorem X15_ids_day_by_day
        (now : Moment) (client : Client) (args : GetUsersArgs)
        (lo : Z) (n : nat) (r : UsersList) :
  users_range (users_type args) (users_date now args) = Some (lo, n) ->
  no_dash (or_default (users_action args) "active") = true ->
  0 <= YearFromTime (midnight lo) ->
  YearFromTime (midnight (lo + Z.of_nat n - 1)) <= 9999 ->
  outcome (getUsers now client args) = CallbackOk r ->
  Permutation
    (ids r)
    (flat_map
       (fun d =>
          map (fun i => {| id := i; date := format_YYYY_MM_DD (midnight d) |})
              (key_positions client
                 (keyFor now (users_action args) (Some (midnight d)))))
       (zrange lo n)).
Proof.
  intros HR HA Y0 Y9 HO.
  pose proof (users_keys_range now (users_type args) (users_action args)
                (users_date now args)) as HK.
  rewrite HR in HK.
  pose proof (getUsers_ids_perm _ _ _ _ _ HK HO) as P.
  rewrite flat_map_map in P.
  erewrite flat_map_ext_on in P; [exact P|].
  intros d Hd. apply zrange_In in Hd. cbv beta.
  rewrite key_ids_positions. unfold entry_of.
  rewrite moment_format_key; [reflexivity | exact HA |].
  unfold YearFromTime in *. rewrite Day_midnight in *.
  pose proof (YearFromDay_mono lo d ltac:(lia)).
  pose proof (YearFromDay_mono d (lo + Z.of_nat n - 1) ltac:(lia)). lia.
Qed.

Lemma X15_witness :
  Permutation
    (ids {| from := "2024-01-01"; to := "2024-01-01";
            ids := [ {| id := 0; date := "2024-01-01" |};
                     {| id := 2; date := "2024-01-01" |} ] |})
    (flat_map
       (fun d =>
          map (fun i => {| id := i; date := format_YYYY_MM_DD (midnight d) |})
              (key_positions (redisClient store_2024_01_01)
                 (keyFor 0 (users_action scenario_call) (Some (midnight d)))))
       (zrange 19723 1)).
Proof.
  apply (X15_ids_day_by_day 0 (redisClient store_2024_01_01) scenario_call);
    [reflexivity | reflexivity | vm_compute; discriminate
    | vm_compute; discriminate | vm_compute; reflexivity].
Defined.


